(** * homeScroller: catalog, ranking, pagination and range streaming

    A shallow embedding of the core of [app.py]: the slash normaliser, the
    identifier digest, the catalog builder and its cache, the ranking ladder,
    the page slicer, the two query endpoints and the byte-range streamer,
    together with the properties the specification states about them.

    Modelling conventions.
    - A Python [str] is a Rocq [string]; case folding and whitespace are the
      ASCII ones (characters above 127 are opaque, neither cased nor blank),
      so [len] is [String.length] and [encode("utf-8")] is the identity on
      the characters.
    - A Python [int] is a [Z]; [int(s)] is modelled without the interpreter's
      optional cap on the number of digits.
    - A Python [float] (only the modification time) is an abstract type
      [F]; its textual form [str_float] and its order [float_ltb] are taken
      as functions where the code uses them.
    - Paths are POSIX paths; [Path.resolve] and the content of the disk are
      functions of a file system value, so that links are whatever that
      value says.
    - The global [INDEX], the cache file and the request are explicit values;
      calls that may raise return an [outcome]. *)

From Stdlib Require Import String Ascii ZArith List Lia Bool Arith.
From Stdlib Require Import Permutation Sorted DecimalString.
From Stdlib Require Decimal DecimalPos.
Import ListNotations.

Local Open Scope string_scope.
Local Open Scope Z_scope.

(** ** Python string primitives *)

Module PyStr.

(** [c.lower()] on one character: only A..Z change. *)
Definition lower_ascii (c : ascii) : ascii :=
  let n := nat_of_ascii c in
  if andb (65 <=? n)%nat (n <=? 90)%nat then ascii_of_nat (n + 32) else c.

(** [s.lower()] *)
Fixpoint lower (s : string) : string :=
  match s with
  | EmptyString => EmptyString
  | String c s' => String (lower_ascii c) (lower s')
  end.

(** [c.isspace()]: tab, LF, VT, FF, CR, the four separators 28..31, space. *)
Definition is_space (c : ascii) : bool :=
  let n := nat_of_ascii c in
  orb (andb (9 <=? n)%nat (n <=? 13)%nat)
      (orb (andb (28 <=? n)%nat (n <=? 31)%nat) (n =? 32)%nat).

(** [s.lstrip()] *)
Fixpoint lstrip (s : string) : string :=
  match s with
  | EmptyString => EmptyString
  | String c s' => if is_space c then lstrip s' else s
  end.

(** [s.rstrip()] *)
Fixpoint rstrip (s : string) : string :=
  match s with
  | EmptyString => EmptyString
  | String c s' =>
      match rstrip s' with
      | EmptyString => if is_space c then EmptyString else String c EmptyString
      | t => String c t
      end
  end.

(** [s.strip()] *)
Definition strip (s : string) : string := rstrip (lstrip s).

(** [bool(s)]: a string is truthy when it is not empty. *)
Definition truthy (s : string) : bool :=
  match s with EmptyString => false | _ => true end.

(** [s.startswith(p)] *)
Definition startswith (s p : string) : bool := String.prefix p s.

(** [q in s] *)
Fixpoint contains (s q : string) : bool :=
  orb (String.prefix q s)
      (match s with
       | EmptyString => false
       | String _ s' => contains s' q
       end).

(** [len(s)] as a Python integer *)
Definition len (s : string) : Z := Z.of_nat (String.length s).

(** [str(n)] for an integer *)
Definition str_int (n : Z) : string := NilEmpty.string_of_int (Z.to_int n).

(** Separator class of the token pattern [[\s_\-\.]]. *)
Definition is_sep (c : ascii) : bool :=
  orb (is_space c)
      (orb (Ascii.eqb c "_") (orb (Ascii.eqb c "-") (Ascii.eqb c "."))).

Definition starts_with_sep (s : string) : bool :=
  match s with
  | EmptyString => false
  | String c _ => is_sep c
  end.

(** The first field and the later fields of [re.split(r"[\s_\-\.]+", s)]. *)
Fixpoint split_fields (s : string) : string * list string :=
  match s with
  | EmptyString => (EmptyString, [])
  | String c s' =>
      let '(t, ts) := split_fields s' in
      if is_sep c then
        if starts_with_sep s' then (EmptyString, ts) else (EmptyString, t :: ts)
      else (String c t, ts)
  end.

(** [re.split(r"[\s_\-\.]+", s)]: fields between maximal separator runs,
    empty fields at either end included. *)
Definition re_split_seps (s : string) : list string :=
  let '(t, ts) := split_fields s in t :: ts.

(** ASCII decimal digit, the class [\d]. *)
Definition is_digit (c : ascii) : bool :=
  let n := nat_of_ascii c in andb (48 <=? n)%nat (n <=? 57)%nat.

Definition digit_val (c : ascii) : Z := Z.of_nat (nat_of_ascii c) - 48.

(** Value of a run of digits read left to right, [acc] the value so far. *)
Fixpoint digits_val (acc : Z) (s : string) : Z :=
  match s with
  | EmptyString => acc
  | String c s' => digits_val (10 * acc + digit_val c) s'
  end.

(** The body of an integer literal accepted by [int]: digits, with single
    underscores allowed between two digits. [prev] tells whether the
    previous character was a digit. *)
Fixpoint int_body (prev : bool) (acc : Z) (s : string) : option Z :=
  match s with
  | EmptyString => if prev then Some acc else None
  | String c s' =>
      if is_digit c then int_body true (10 * acc + digit_val c) s'
      else if andb (Ascii.eqb c "_") prev then int_body false acc s'
      else None
  end.

(** [int(s)]: [None] stands for [ValueError]. Surrounding blanks are
    ignored, one sign is allowed. *)
Definition py_int (s : string) : option Z :=
  match strip s with
  | EmptyString => None
  | String c s' =>
      if Ascii.eqb c "-" then option_map Z.opp (int_body false 0 s')
      else if Ascii.eqb c "+" then int_body false 0 s'
      else int_body false 0 (String c s')
  end.

End PyStr.

Import PyStr.

(** ** Data model *)

(** One catalog entry: the dict [{id, relpath, filename, folder, mtime, size}].
    [F] is the type of the modification time (a Python float). *)
Module Item.
Record t {F : Type} : Type := mk
  { id : string;
    relpath : string;
    filename : string;
    folder : string;
    mtime : F;
    size : Z }.
Arguments t : clear implicits.
Arguments mk {F} _ _ _ _ _ _.
End Item.

(** The global [INDEX] dict. [built_at] and [root] are [None] before the
    first build. *)
Module Index.
Record t {F : Type} : Type := mk
  { built_at : option F;
    root : option string;
    items : list (Item.t F);
    folders : list string }.
Arguments t : clear implicits.
Arguments mk {F} _ _ _ _.
End Index.

Definition DEFAULT_PAGE_SIZE : Z := 12.
Definition MAX_PAGE_SIZE : Z := 50.

(** ** List primitives of the interpreter *)

Module PyList.

Section Sorting.
Context {A : Type}.

(** [before y x] tells that [y] has to come strictly before [x]. The
    element [x], which stood before all of [l], is placed in front of the
    first element that need not precede it. *)
Fixpoint insert_by (before : A -> A -> bool) (x : A) (l : list A) : list A :=
  match l with
  | [] => [x]
  | y :: l' => if before y x then y :: insert_by before x l' else x :: l
  end.

(** The stable sort behind [list.sort] and [sorted]. *)
Fixpoint sort_by (before : A -> A -> bool) (l : list A) : list A :=
  match l with
  | [] => []
  | x :: l' => insert_by before x (sort_by before l')
  end.

(** [l.sort(key=key, reverse=True)]: stable, largest key first. *)
Definition sort_desc (key : A -> Z) (l : list A) : list A :=
  sort_by (fun y x => key x <? key y) l.
End Sorting.

(** An index of a slice brought into [0, n], negative ones counted from the
    end. *)
Definition slice_index (n i : Z) : Z :=
  if i <? 0 then Z.max 0 (i + n) else Z.min i n.

(** [l[a:b]] *)
Definition slice {A : Type} (l : list A) (a b : Z) : list A :=
  let n := Z.of_nat (List.length l) in
  let lo := slice_index n a in
  let hi := slice_index n b in
  firstn (Z.to_nat (hi - lo)) (skipn (Z.to_nat lo) l).

End PyList.

Import PyList.

(** ** Path normalisation *)

(** [path.replace("\\", "/")] *)
Fixpoint replace_backslash (s : string) : string :=
  match s with
  | EmptyString => EmptyString
  | String c s' =>
      String (if Ascii.eqb c "\" then "/"%char else c) (replace_backslash s')
  end.

(** [re.sub(r"/+", "/", path)] *)
Fixpoint collapse_slashes (s : string) : string :=
  match s with
  | EmptyString => EmptyString
  | String c s' =>
      if andb (Ascii.eqb c "/") (startswith s' "/") then collapse_slashes s'
      else String c (collapse_slashes s')
  end.

(** [path.lstrip("/")] *)
Fixpoint lstrip_slash (s : string) : string :=
  match s with
  | EmptyString => EmptyString
  | String c s' => if Ascii.eqb c "/" then lstrip_slash s' else s
  end.

Definition safe_norm (path : string) : string :=
  let path := replace_backslash path in
  let path := collapse_slashes path in
  lstrip_slash path.

(** ** Ranking engine *)

(** The token loop of [score_match]: one step per field of the split. *)
Definition token_step (f r : string) (score : Z) (t : string) : Z :=
  if negb (truthy t) then score
  else if contains f t then score + 120
  else if contains r t then score + 60
  else score.

Definition score_match (q filename relpath : string) : Z :=
  let q := strip (lower q) in
  if negb (truthy q) then 0
  else
    let f := lower filename in
    let r := lower relpath in
    if String.eqb q f then 1000
    else if contains f q then 800 - (len f - len q)
    else if contains r q then 500 - (len r - len q)
    else
      let tokens := re_split_seps q in
      fold_left (token_step f r) tokens 0.

(** The folder test of [filter_items]. *)
Definition in_folder {F} (folder : string) (it : Item.t F) : bool :=
  orb (String.eqb (Item.folder it) folder)
      (startswith (Item.folder it) (folder ++ "/")).

(** The scoring loop of [filter_items]: the pairs [(s, it)] with [s > 0]. *)
Definition scored_items {F} (q : string) (items : list (Item.t F))
  : list (Z * Item.t F) :=
  flat_map (fun it =>
              let s := score_match q (Item.filename it) (Item.relpath it) in
              if 0 <? s then [(s, it)] else [])
           items.

Definition filter_items {F} (INDEX : Index.t F)
    (q : string) (folder : string) (starts_with : option string)
  : list (Item.t F) :=
  let q := strip q in
  let folder := safe_norm folder in
  let items := Index.items INDEX in
  let items :=
    if truthy folder then filter (in_folder folder) items else items in
  let items :=
    match starts_with with
    | Some sw0 =>
        if truthy sw0 then
          let sw := lower (strip sw0) in
          if truthy sw
          then filter (fun it => startswith (lower (Item.filename it)) sw) items
          else items
        else items
    | None => items
    end in
  if negb (truthy q) then items
  else
    let scored := scored_items q items in
    let scored := sort_desc fst scored in
    map snd scored.

(** ** Pagination *)

(** One element of the ["items"] list of a page. *)
Module PageItem.
Record t {F : Type} : Type := mk
  { id : string;
    filename : string;
    folder : string;
    relpath : string;
    url : string;
    mtime : F;
    size : Z }.
Arguments t : clear implicits.
Arguments mk {F} _ _ _ _ _ _ _.
End PageItem.

Module Page.
Record t {F : Type} : Type := mk
  { total : Z;
    offset : Z;
    limit : Z;
    items : list (PageItem.t F) }.
Arguments t : clear implicits.
Arguments mk {F} _ _ _ _.
End Page.

Definition page_item {F} (it : Item.t F) : PageItem.t F :=
  PageItem.mk (Item.id it) (Item.filename it) (Item.folder it)
              (Item.relpath it) ("/v/" ++ Item.id it) (Item.mtime it)
              (Item.size it).

Definition make_page {F} (items : list (Item.t F)) (offset limit : Z)
  : Page.t F :=
  let chunk := slice items offset (offset + limit) in
  Page.mk (Z.of_nat (List.length items)) offset limit (map page_item chunk).

(** ** Query endpoints *)

(** [request.args]: the query parameters in the order they were sent. *)
Definition args_t : Type := list (string * string).

(** [request.args.get(key, default)]: the first value sent for [key]. *)
Fixpoint args_get (args : args_t) (key default : string) : string :=
  match args with
  | [] => default
  | (k, v) :: args' => if String.eqb k key then v else args_get args' key default
  end.

(** The value of [(request.args.get("starts_with", "") or "").strip() or None]. *)
Definition starts_with_arg (args : args_t) : option string :=
  let s := strip (args_get args "starts_with" "") in
  if truthy s then Some s else None.

(** What [api_feed] hands to the framework: a JSON body and a status. *)
Inductive feed_body {F : Type} : Type :=
| FeedPage (p : Page.t F)
| FeedError (msg : string).
Arguments feed_body : clear implicits.

Definition api_feed {F} (INDEX : Index.t F) (args : args_t) : feed_body F * Z :=
  let q := args_get args "q" "" in
  let folder := args_get args "folder" "" in
  let starts_with := starts_with_arg args in
  match py_int (args_get args "offset" "0") with
  | None => (FeedError "bad offset/limit", 400)
  | Some offset =>
      match py_int (args_get args "limit" (str_int DEFAULT_PAGE_SIZE)) with
      | None => (FeedError "bad offset/limit", 400)
      | Some limit =>
          let offset := if offset <? 0 then 0 else offset in
          let limit := Z.max 1 (Z.min limit MAX_PAGE_SIZE) in
          let items := filter_items INDEX q folder starts_with in
          (FeedPage (make_page items offset limit), 200)
      end
  end.

(** One element of the list [api_suggest] returns. *)
Module SuggestItem.
Record t : Type := mk
  { id : string;
    filename : string;
    folder : string;
    relpath : string }.
End SuggestItem.

Definition suggest_item {F} (it : Item.t F) : SuggestItem.t :=
  SuggestItem.mk (Item.id it) (Item.filename it) (Item.folder it)
                 (Item.relpath it).

Definition api_suggest {F} (INDEX : Index.t F) (args : args_t)
  : list SuggestItem.t * Z :=
  let q := strip (args_get args "q" "") in
  let folder := args_get args "folder" "" in
  let starts_with := starts_with_arg args in
  let limit :=
    match py_int (args_get args "limit" "8") with
    | Some limit => limit
    | None => 8
    end in
  let limit := Z.max 1 (Z.min limit 20) in
  let items := filter_items INDEX q folder starts_with in
  let top := slice items 0 limit in
  (map suggest_item top, 200).

(** ** Paths and the file system *)

(** A [pathlib] POSIX path: whether it starts at the root, and its parts. *)
Module PPath.
Record t : Type := mk
  { anchored : bool;
    parts : list string }.
End PPath.

(** The text before the first slash and, when there is a slash, the text
    after it. *)
Fixpoint cut_slash (s : string) : string * option string :=
  match s with
  | EmptyString => (EmptyString, None)
  | String c s' =>
      if Ascii.eqb c "/" then (EmptyString, Some s')
      else let '(h, r) := cut_slash s' in (String c h, r)
  end.

(** [s.split("/")], by recursion on the length of [s]. *)
Fixpoint split_slash_fuel (n : nat) (s : string) : list string :=
  match n with
  | O => [s]
  | S n' =>
      match cut_slash s with
      | (h, None) => [h]
      | (h, Some r) => h :: split_slash_fuel n' r
      end
  end.

Definition split_slash (s : string) : list string :=
  split_slash_fuel (String.length s) s.

(** A part that [Path(...)] drops: empty or a single dot. *)
Definition dropped_part (p : string) : bool :=
  orb (String.eqb p "") (String.eqb p ".").

(** [Path(s)] *)
Definition parse_path (s : string) : PPath.t :=
  PPath.mk (startswith s "/")
           (filter (fun p => negb (dropped_part p)) (split_slash s)).

(** [p / s] *)
Definition joinpath (p : PPath.t) (s : string) : PPath.t :=
  let q := parse_path s in
  if PPath.anchored q then q
  else PPath.mk (PPath.anchored p) (PPath.parts p ++ PPath.parts q)%list.

(** ["/".join(parts)] *)
Fixpoint join_slash (parts : list string) : string :=
  match parts with
  | [] => ""
  | [p] => p
  | p :: ps => p ++ "/" ++ join_slash ps
  end.

(** [str(p)] *)
Definition path_str (p : PPath.t) : string :=
  if PPath.anchored p then "/" ++ join_slash (PPath.parts p)
  else match PPath.parts p with
       | [] => "."
       | ps => join_slash ps
       end.

Definition path_eqb (p q : PPath.t) : bool :=
  andb (Bool.eqb (PPath.anchored p) (PPath.anchored q))
       (if list_eq_dec string_dec (PPath.parts p) (PPath.parts q)
        then true else false).

(** What lies at a canonical path. *)
Inductive node : Type :=
| Missing
| Dir (st_size : Z)
| File (content : list Byte.byte).

(** The part of the file system the handlers observe: [resolve] is
    [Path.resolve] ([None] when it raises) and follows the links of the
    system; [lookup] tells what is at a resolved path. *)
Module FS.
Record t : Type := mk
  { resolve : PPath.t -> option PPath.t;
    lookup : PPath.t -> node }.
End FS.

(** [p.exists()] *)
Definition path_exists (fs : FS.t) (p : PPath.t) : bool :=
  match FS.lookup fs p with Missing => false | _ => true end.

(** [p.is_file()] *)
Definition path_is_file (fs : FS.t) (p : PPath.t) : bool :=
  match FS.lookup fs p with File _ => true | _ => false end.

Definition os_sep : string := "/".

Definition is_within_root (fs : FS.t) (root target : PPath.t) : bool :=
  match FS.resolve fs root with
  | None => false
  | Some root_res =>
      match FS.resolve fs target with
      | None => false
      | Some target_res =>
          orb (startswith (path_str target_res) (path_str root_res ++ os_sep))
              (path_eqb target_res root_res)
      end
  end.

(** ** Range streamer *)

(** [s] without the prefix [p], when it has it. *)
Fixpoint strip_prefix (p s : string) : option string :=
  match p, s with
  | EmptyString, _ => Some s
  | String a p', String b s' => if Ascii.eqb a b then strip_prefix p' s' else None
  | String _ _, EmptyString => None
  end.

(** The longest run of digits at the head of [s], and what follows it. *)
Fixpoint span_digits (s : string) : string * string :=
  match s with
  | EmptyString => (EmptyString, EmptyString)
  | String c s' =>
      if is_digit c then let '(d, r) := span_digits s' in (String c d, r)
      else (EmptyString, s)
  end.

(** [re.match] of the range pattern at the head of [h]: the literal
    [bytes=], one or more digits (group 1), a dash, then as many digits as
    follow (group 2, possibly none). The two groups, or [None]. *)
Definition match_range (h : string) : option (string * string) :=
  match strip_prefix "bytes=" h with
  | None => None
  | Some rest =>
      let '(g1, rest1) := span_digits rest in
      if negb (truthy g1) then None
      else match rest1 with
           | String "-" rest2 =>
               let '(g2, _) := span_digits rest2 in Some (g1, g2)
           | _ => None
           end
  end.

(** What a handler hands back to the framework. *)
Inductive response : Type :=
| Abort (code : Z)
| SendFile (path : string)
| Resp (data : list Byte.byte) (status : Z) (mimetype : string)
       (headers : list (string * string))
| Uncaught (exn : string).

(** The reads a handler performs itself on an open file. *)
Inductive io_event : Type :=
| IoRead (path : string) (start length : Z).

(** [f.seek(start); f.read(length)] on a file holding [content]. *)
Definition file_read (content : list Byte.byte) (start length : Z)
  : list Byte.byte :=
  firstn (Z.to_nat length) (skipn (Z.to_nat start) content).

Definition get_item_by_id {F} (INDEX : Index.t F) (item_id : string)
  : option (Item.t F) :=
  find (fun it => String.eqb (Item.id it) item_id) (Index.items INDEX).

(** The part of [stream_video] after the target has been accepted and a
    range header has matched. *)
Definition serve_range (fs : FS.t) (target : PPath.t) (g1 g2 : string)
  : response * list io_event :=
  match FS.lookup fs target with
  | Missing => (Uncaught "FileNotFoundError", [])
  | node_ =>
      let size :=
        match node_ with
        | File content => Z.of_nat (List.length content)
        | Dir st_size => st_size
        | Missing => 0
        end in
      match py_int g1 with
      | None => (Uncaught "ValueError", [])
      | Some start =>
          match (if truthy g2 then py_int g2 else Some (size - 1)) with
          | None => (Uncaught "ValueError", [])
          | Some end_ =>
              let end_ := Z.min end_ (size - 1) in
              if end_ <? start then (Abort 416, [])
              else
                let length := end_ - start + 1 in
                match node_ with
                | File content =>
                    let data := file_read content start length in
                    (Resp data 206 "video/mp4"
                          [("Content-Range",
                            "bytes " ++ str_int start ++ "-" ++ str_int end_
                                     ++ "/" ++ str_int size);
                           ("Accept-Ranges", "bytes");
                           ("Content-Length", str_int length)],
                     [IoRead (path_str target) start length])
                | _ => (Uncaught "IsADirectoryError", [])
                end
          end
      end
  end.

Definition stream_video {F} (fs : FS.t) (ROOT_DIR : string)
    (INDEX : Index.t F) (item_id : string) (range_header : option string)
  : response * list io_event :=
  match FS.resolve fs (parse_path ROOT_DIR) with
  | None => (Uncaught "OSError", [])
  | Some root =>
      match get_item_by_id INDEX item_id with
      | None => (Abort 404, [])
      | Some it =>
          match FS.resolve fs (joinpath root (Item.relpath it)) with
          | None => (Uncaught "OSError", [])
          | Some target =>
              if orb (negb (is_within_root fs root target))
                     (negb (path_exists fs target))
              then (Abort 404, [])
              else
                match range_header with
                | None => (SendFile (path_str target), [])
                | Some h =>
                    if negb (truthy h) then (SendFile (path_str target), [])
                    else
                      match match_range h with
                      | None => (SendFile (path_str target), [])
                      | Some (g1, g2) => serve_range fs target g1 g2
                      end
                end
          end
      end
  end.

(** Value of a hexadecimal digit. *)
Definition hex_val (c : ascii) : option nat :=
  let n := nat_of_ascii c in
  if andb (48 <=? n)%nat (n <=? 57)%nat then Some (n - 48)%nat
  else if andb (65 <=? n)%nat (n <=? 70)%nat then Some (n - 55)%nat
  else if andb (97 <=? n)%nat (n <=? 102)%nat then Some (n - 87)%nat
  else None.

(** [urllib.parse.unquote]: each [%XX] escape becomes the character it
    names, anything else is kept. *)
Fixpoint unquote (s : string) : string :=
  match s with
  | String "%" (String a (String b s' as s1) as s2) =>
      match hex_val a, hex_val b with
      | Some x, Some y => String (ascii_of_nat (16 * x + y)) (unquote s')
      | _, _ => String "%" (String a (unquote s1))
      end
  | String c s' => String c (unquote s')
  | EmptyString => EmptyString
  end.

Definition open_file (fs : FS.t) (ROOT_DIR : string) (relpath : string)
  : response :=
  match FS.resolve fs (parse_path ROOT_DIR) with
  | None => Uncaught "OSError"
  | Some root =>
      let relpath := safe_norm (unquote relpath) in
      match FS.resolve fs (joinpath root relpath) with
      | None => Uncaught "OSError"
      | Some target =>
          if orb (negb (is_within_root fs root target))
                 (orb (negb (path_exists fs target))
                      (negb (path_is_file fs target)))
          then Abort 404
          else SendFile (path_str target)
      end
  end.

(** ** The SHA-1 digest of [hashlib] *)

Module Sha1.

Definition mask32 (x : Z) : Z := x mod 2 ^ 32.

Definition add32 (a b : Z) : Z := mask32 (a + b).

(** Rotation to the left of a 32-bit word. *)
Definition rotl32 (n x : Z) : Z :=
  mask32 (Z.lor (Z.shiftl x n) (Z.shiftr x (32 - n))).

Definition not32 (x : Z) : Z := Z.lxor x 4294967295.

(** The bytes of the message, as numbers. *)
Fixpoint bytes_of (s : string) : list Z :=
  match s with
  | EmptyString => []
  | String c s' => Z.of_nat (nat_of_ascii c) :: bytes_of s'
  end.

(** The [n] low bytes of [x], most significant first. *)
Fixpoint be_bytes (n : nat) (x : Z) : list Z :=
  match n with
  | O => []
  | S n' => (be_bytes n' (x / 256) ++ [x mod 256])%list
  end.

(** The message followed by the bit 1, zeros up to 56 modulo 64, and the
    bit length on eight bytes. *)
Definition pad (msg : list Z) : list Z :=
  let n := Z.of_nat (List.length msg) in
  (msg ++ [128] ++ repeat 0 (Z.to_nat ((55 - n) mod 64)) ++ be_bytes 8 (8 * n))%list.

(** Big-endian 32-bit words of a byte sequence. *)
Fixpoint words_of (fuel : nat) (bs : list Z) : list Z :=
  match fuel, bs with
  | S fuel', b0 :: b1 :: b2 :: b3 :: bs' =>
      (((b0 * 256 + b1) * 256 + b2) * 256 + b3) :: words_of fuel' bs'
  | _, _ => []
  end.

(** The message schedule, latest word first, grown by [n] words. *)
Fixpoint extend (n : nat) (w : list Z) : list Z :=
  match n with
  | O => w
  | S n' =>
      let x := Z.lxor (Z.lxor (nth 2 w 0) (nth 7 w 0))
                      (Z.lxor (nth 13 w 0) (nth 15 w 0)) in
      extend n' (rotl32 1 x :: w)
  end.

Definition schedule (block : list Z) : list Z := rev (extend 64 (rev block)).

Definition state : Type := (Z * Z * Z * Z * Z)%type.

Definition round (t : Z) (st : state) (w : Z) : state :=
  let '(a, b, c, d, e) := st in
  let '(f, k) :=
    if t <? 20 then (Z.lor (Z.land b c) (Z.land (not32 b) d), 1518500249)
    else if t <? 40 then (Z.lxor (Z.lxor b c) d, 1859775393)
    else if t <? 60 then
      (Z.lor (Z.lor (Z.land b c) (Z.land b d)) (Z.land c d), 2400959708)
    else (Z.lxor (Z.lxor b c) d, 3395469782) in
  let temp := add32 (add32 (add32 (add32 (rotl32 5 a) f) e) k) w in
  (temp, a, rotl32 30 b, c, d).

Fixpoint rounds (t : Z) (st : state) (ws : list Z) : state :=
  match ws with
  | [] => st
  | w :: ws' => rounds (t + 1) (round t st w) ws'
  end.

Definition compress (h : state) (block : list Z) : state :=
  let '(h0, h1, h2, h3, h4) := h in
  let '(a, b, c, d, e) := rounds 0 h (schedule block) in
  (add32 h0 a, add32 h1 b, add32 h2 c, add32 h3 d, add32 h4 e).

Fixpoint blocks (fuel : nat) (h : state) (ws : list Z) : state :=
  match fuel, ws with
  | S fuel', _ :: _ => blocks fuel' (compress h (firstn 16 ws)) (skipn 16 ws)
  | _, _ => h
  end.

Definition init : state :=
  (1732584193, 4023233417, 2562383102, 271733878, 3285377520).

Definition digest (msg : string) : state :=
  let bs := pad (bytes_of msg) in
  let ws := words_of (List.length bs) bs in
  blocks (List.length ws) init ws.

Definition hex_digit (x : Z) : ascii :=
  if x <? 10 then ascii_of_nat (Z.to_nat x + 48)
  else ascii_of_nat (Z.to_nat x + 87).

(** Eight hexadecimal digits of a 32-bit word. *)
Definition hex8 (w : Z) : string :=
  String (hex_digit (w / 268435456 mod 16))
 (String (hex_digit (w / 16777216 mod 16))
 (String (hex_digit (w / 1048576 mod 16))
 (String (hex_digit (w / 65536 mod 16))
 (String (hex_digit (w / 4096 mod 16))
 (String (hex_digit (w / 256 mod 16))
 (String (hex_digit (w / 16 mod 16))
 (String (hex_digit (w mod 16)) EmptyString))))))).

(** [hashlib.sha1(msg).hexdigest()] *)
Definition hexdigest_of (msg : string) : string :=
  let '(h0, h1, h2, h3, h4) := digest msg in
  hex8 h0 ++ hex8 h1 ++ hex8 h2 ++ hex8 h3 ++ hex8 h4.

End Sha1.

(** A [hashlib] hash object: the bytes fed so far. *)
Module Hashlib.
Definition t : Type := string.
Definition sha1 : t := EmptyString.
Definition update (h : t) (data : string) : t := h ++ data.
Definition hexdigest (h : t) : string := Sha1.hexdigest_of h.
End Hashlib.

(** [s.encode("utf-8")] *)
Definition encode_utf8 (s : string) : string := s.

(** ** Catalog builder *)

Definition VIDEO_EXTS : list string := [".mp4"; ".mov"; ".m4v"; ".webm"].

(** One path produced by [root_dir.rglob("*")], with what the builder asks
    of it: its text relative to the root, whether it is a regular file, and
    its [stat]. *)
Module Walk.
Record entry {F : Type} : Type := mk
  { rel : string;
    is_file : bool;
    st_mtime : F;
    st_size : Z }.
Arguments entry : clear implicits.
Arguments mk {F} _ _ _ _.
End Walk.

(** [p.name]: the last part. *)
Definition path_name (p : PPath.t) : string := last (PPath.parts p) "".

(** [p.parent] *)
Definition path_parent (p : PPath.t) : PPath.t :=
  PPath.mk (PPath.anchored p) (removelast (PPath.parts p)).

(** The text from the last dot of [s] on, when [s] has a dot. *)
Fixpoint from_last_dot (s : string) : option string :=
  match s with
  | EmptyString => None
  | String c s' =>
      match from_last_dot s' with
      | Some t => Some t
      | None => if Ascii.eqb c "." then Some s else None
      end
  end.

(** [p.suffix] of a name: from the last dot, unless that dot is the first
    or the last character. *)
Definition name_suffix (name : string) : string :=
  match name with
  | EmptyString => ""
  | String _ rest =>
      match from_last_dot rest with
      | Some t => if (1 <? String.length t)%nat then t else ""
      | None => ""
      end
  end.

(** [s.count("/")] *)
Fixpoint count_slash (s : string) : Z :=
  match s with
  | EmptyString => 0
  | String c s' => (if Ascii.eqb c "/" then 1 else 0) + count_slash s'
  end.

(** [x in l] for strings *)
Definition str_mem (x : string) (l : list string) : bool :=
  existsb (String.eqb x) l.

(** [folders.add(x)], the set kept in order of first insertion. *)
Definition set_add (x : string) (l : list string) : list string :=
  if str_mem x l then l else (l ++ [x])%list.

(** Order of the keys [(s.count("/"), s.lower())]. *)
Definition folder_key_ltb (a b : string) : bool :=
  orb (count_slash a <? count_slash b)
      (andb (count_slash a =? count_slash b) (String.ltb (lower a) (lower b))).

Section Builder.
Context {F : Type}.
(** [str(x)] and [x < y] on floats, and the reading of the clock. *)
Variable str_float : F -> string.
Variable float_ltb : F -> F -> bool.

Definition compute_id (relpath : string) (mtime : F) (size : Z) : string :=
  let h := Hashlib.sha1 in
  let h := Hashlib.update h (encode_utf8 relpath) in
  let h := Hashlib.update h (encode_utf8 (str_float mtime)) in
  let h := Hashlib.update h (encode_utf8 (str_int size)) in
  substring 0 16 (Hashlib.hexdigest h).

(** One turn of the loop of [build_index] over the walk. *)
Definition build_step (acc : list (Item.t F) * list string)
    (p : Walk.entry F) : list (Item.t F) * list string :=
  let '(items, folders) := acc in
  if negb (Walk.is_file p) then acc
  else
    let name := path_name (parse_path (Walk.rel p)) in
    if negb (str_mem (lower (name_suffix name)) VIDEO_EXTS) then acc
    else
      let rel := safe_norm (Walk.rel p) in
      let folder := safe_norm (path_str (path_parent (parse_path rel))) in
      let folder := if String.eqb folder "." then "" else folder in
      let folders := set_add folder folders in
      let item :=
        Item.mk (compute_id rel (Walk.st_mtime p) (Walk.st_size p))
                rel name folder (Walk.st_mtime p) (Walk.st_size p) in
      ((items ++ [item])%list, folders).

(** [build_index(root_dir)], given what the walk of [root_dir] yields and
    what the clock reads. *)
Definition build_index (now : F) (root_dir : PPath.t)
    (walk : list (Walk.entry F)) : Index.t F :=
  let '(items, folders) := fold_left build_step walk ([], [""]) in
  let items :=
    sort_by (fun y x => float_ltb (Item.mtime x) (Item.mtime y)) items in
  Index.mk (Some now) (Some (path_str root_dir)) items
           (sort_by folder_key_ltb folders).
End Builder.

(** ** Catalog cache and the live index *)

(** What the cache path holds: nothing, a text that [load_index] or the
    sanity check cannot use (not JSON, not a dict, ["items"] not a list),
    or a saved index. *)
Inductive cache_file {F : Type} : Type :=
| NoFile
| Garbled
| Stored (idx : Index.t F).
Arguments cache_file : clear implicits.

(** The process and its surroundings: the two globals, the files at the
    cache paths, whether the disk accepts writes, and what the walk, the
    clock and [resolve] answer. *)
Module World.
Record t {F : Type} : Type := mk
  { INDEX : Index.t F;
    INDEX_CACHE_PATH : option PPath.t;
    disk : string -> cache_file F;
    writable : bool;
    rglob : PPath.t -> list (Walk.entry F);
    clock : F;
    resolve : PPath.t -> option PPath.t }.
Arguments t : clear implicits.
Arguments mk {F} _ _ _ _ _ _ _.

Definition set_INDEX {F} (idx : Index.t F) (w : t F) : t F :=
  mk idx (INDEX_CACHE_PATH w) (disk w) (writable w) (rglob w) (clock w)
     (resolve w).

Definition set_INDEX_CACHE_PATH {F} (p : PPath.t) (w : t F) : t F :=
  mk (INDEX w) (Some p) (disk w) (writable w) (rglob w) (clock w) (resolve w).

Definition write_file {F} (path : string) (c : cache_file F) (w : t F) : t F :=
  mk (INDEX w) (INDEX_CACHE_PATH w)
     (fun p => if String.eqb p path then c else disk w p)
     (writable w) (rglob w) (clock w) (resolve w).
End World.

(** How a call ends: with a value or with an exception. *)
Inductive outcome (A : Type) : Type :=
| Ret (a : A)
| Raise (exn : string).
Arguments Ret {A} _.
Arguments Raise {A} _.

(** Computations over the world that may raise. *)
Definition M (F A : Type) : Type := World.t F -> outcome A * World.t F.

Definition ret {F A} (a : A) : M F A := fun w => (Ret a, w).

Definition raise {F A} (exn : string) : M F A := fun w => (Raise exn, w).

Definition bind {F A B} (c : M F A) (k : A -> M F B) : M F B :=
  fun w =>
    match c w with
    | (Ret a, w') => k a w'
    | (Raise exn, w') => (Raise exn, w')
    end.

(** [try: c  except Exception: h] *)
Definition try_except {F A} (c : M F A) (h : M F A) : M F A :=
  fun w =>
    match c w with
    | (Ret a, w') => (Ret a, w')
    | (Raise _, w') => h w'
    end.

Definition get_world {F} : M F (World.t F) := fun w => (Ret w, w).

Definition modify {F} (f : World.t F -> World.t F) : M F unit :=
  fun w => (Ret tt, f w).

Notation "x <- c ;; k" := (bind c (fun x => k))
  (at level 61, c at next level, right associativity).
Notation "c ;;; k" := (bind c (fun _ => k))
  (at level 61, right associativity).

Section Cache.
Context {F : Type}.
Variable str_float : F -> string.
Variable float_ltb : F -> F -> bool.

(** [cache_path.write_text(json.dumps(idx, ...))] *)
Definition save_index (idx : Index.t F) (cache_path : option PPath.t)
  : M F unit :=
  match cache_path with
  | None => raise "AttributeError"
  | Some p =>
      w <- get_world ;;
      if World.writable w
      then modify (World.write_file (path_str p) (Stored idx))
      else raise "OSError"
  end.

(** [json.loads(cache_path.read_text(...))] *)
Definition load_index (cache_path : PPath.t) : M F (Index.t F) :=
  w <- get_world ;;
  match World.disk w (path_str cache_path) with
  | Stored idx => ret idx
  | Garbled => raise "ValueError"
  | NoFile => raise "FileNotFoundError"
  end.

(** [build_index(root_dir)] run against the world. *)
Definition build_index_now (root_dir : PPath.t) : M F (Index.t F) :=
  w <- get_world ;;
  ret (build_index str_float float_ltb (World.clock w) root_dir
                   (World.rglob w root_dir)).

(** The test [idx.get("root") == str(root_dir)] of the sanity check. *)
Definition root_matches (idx : Index.t F) (root_dir : PPath.t) : bool :=
  match Index.root idx with
  | Some r => String.eqb r (path_str root_dir)
  | None => false
  end.

(** The cache branch of [ensure_index]: [true] when the cached index was
    installed and the function returned. *)
Definition use_cache (root_dir cache_path : PPath.t) : M F bool :=
  w <- get_world ;;
  match World.disk w (path_str cache_path) with
  | NoFile => ret false
  | _ =>
      try_except
        (idx <- load_index cache_path ;;
         if root_matches idx root_dir
         then modify (World.set_INDEX idx) ;;; ret true
         else ret false)
        (ret false)
  end.

Definition ensure_index (root_dir : PPath.t) : M F unit :=
  w <- get_world ;;
  match World.resolve w root_dir with
  | None => raise "OSError"
  | Some root_dir =>
      let cache_path := joinpath root_dir ".reels_index.json" in
      modify (World.set_INDEX_CACHE_PATH cache_path) ;;;
      done <- use_cache root_dir cache_path ;;
      if (done : bool) then ret tt
      else
        idx <- build_index_now root_dir ;;
        modify (World.set_INDEX idx) ;;;
        w <- get_world ;;
        save_index (World.INDEX w) (World.INDEX_CACHE_PATH w)
  end.

(** [request.args.get("reindex") == "1"] *)
Definition reindex_requested (args : args_t) : bool :=
  String.eqb (args_get args "reindex" "") "1".

Definition refresh_index_if_requested (args : args_t) (root_dir : PPath.t)
  : M F unit :=
  if reindex_requested args then
    idx <- build_index_now root_dir ;;
    w <- get_world ;;
    save_index idx (World.INDEX_CACHE_PATH w) ;;;
    modify (World.set_INDEX idx)
  else ret tt.
End Cache.

(** ** The ranking and scope filter in the words of the specification *)

Module Spec.

(** The non-empty tokens of a query. *)
Definition tokens (q : string) : list string :=
  filter truthy (re_split_seps q).

(** What one token adds: 120 in the file name, else 60 in the path. *)
Definition token_score (f r t : string) : Z :=
  if contains f t then 120 else if contains r t then 60 else 0.

(** The ladder of section 4.3, comparisons being case-insensitive. *)
Definition ladder (q fileName relativePath : string) : Z :=
  let q' := lower q in
  let f := lower fileName in
  let r := lower relativePath in
  if String.eqb q' f then 1000
  else if contains f q' then 800 - (len fileName - len q)
  else if contains r q' then 500 - (len relativePath - len q)
  else fold_right Z.add 0 (map (token_score f r) (tokens q')).

Definition score {F} (q : string) (it : Item.t F) : Z :=
  ladder q (Item.filename it) (Item.relpath it).

(** Entries scoring 0 dropped, the rest by decreasing score, ties in the
    order they came. *)
Definition ranked {F} (q : string) (entries : list (Item.t F))
  : list (Item.t F) :=
  sort_desc (score q) (filter (fun it => negb (score q it =? 0)) entries).

(** Folder scope [f]: the folder is [f] or begins with [f + "/"]. *)
Definition in_scope {F} (f : string) (it : Item.t F) : bool :=
  orb (String.eqb (Item.folder it) f) (startswith (Item.folder it) (f ++ "/")).

(** Prefix filter [p]: when not empty, the file name starts with it, case
    ignored. *)
Definition has_prefix {F} (p : string) (it : Item.t F) : bool :=
  orb (negb (truthy p)) (startswith (lower (Item.filename it)) (lower p)).

(** The entries in scope [f] with prefix [p], in catalog order. *)
Definition scoped {F} (f p : string) (entries : list (Item.t F))
  : list (Item.t F) :=
  filter (fun it => andb (in_scope f it) (has_prefix p it)) entries.

End Spec.

(** ** A small installation used to run the definitions *)

Module Demo.

(** Modification times as whole seconds. *)
Definition str_float (x : Z) : string := str_int x ++ ".0".
Definition float_ltb (x y : Z) : bool := x <? y.

Definition entry (relpath filename folder : string) : Item.t Z :=
  Item.mk (compute_id str_float relpath 0 0) relpath filename folder 0 0.

Definition index_of (items : list (Item.t Z)) : Index.t Z :=
  Index.mk None None items [""].

(** Seven-token query against a name that repeats it and a name that only
    holds the token. *)
Definition seven : string := "a a a a a a a".
Definition repeated : Item.t Z := entry "a a a a a a a.mp4" "a a a a a a a.mp4" "".
Definition single : Item.t Z := entry "a.mp4" "a.mp4" "".

(** An entry three long directories deep, below a directory [zz]. *)
Definition d200 : string := string_of_list_ascii (repeat "d"%char 200).
Definition deep_folder : string := "zz/" ++ d200 ++ "/" ++ d200 ++ "/" ++ d200.
Definition deep : Item.t Z :=
  entry (deep_folder ++ "/v.mp4") "v.mp4" deep_folder.

Definition top : Item.t Z := entry "clip.mp4" "clip.mp4" "".
Definition nested : Item.t Z := entry "trips/clip.mp4" "clip.mp4" "trips".

(** A tree [/srv/media] with a video of 1000 bytes, an empty video and a
    link leaving the tree; [/etc/passwd] lies outside. *)
Definition normal_parts (parts : list string) : list string :=
  fold_left (fun acc c => if String.eqb c ".." then removelast acc
                          else (acc ++ [c])%list) parts [].

Definition follow_links (parts : list string) : list string :=
  if list_eq_dec string_dec parts ["srv"; "media"; "link.mp4"]
  then ["etc"; "passwd"] else parts.

Definition thousand : list Byte.byte :=
  map (fun n => byte_of_ascii (ascii_of_nat (n mod 251))) (seq 0 1000).

Definition fs : FS.t :=
  FS.mk (fun p => Some (PPath.mk true (follow_links (normal_parts (PPath.parts p)))))
        (fun p =>
           if list_eq_dec string_dec (PPath.parts p) ["srv"; "media"; "a.mp4"]
           then File thousand
           else if list_eq_dec string_dec (PPath.parts p) ["srv"; "media"; "empty.mp4"]
           then File []
           else if list_eq_dec string_dec (PPath.parts p) ["etc"; "passwd"]
           then File [byte_of_ascii "r"]
           else if list_eq_dec string_dec (PPath.parts p) ["srv"; "media"]
           then Dir 4096
           else Missing).

Definition ROOT_DIR : string := "/srv/media".

Definition catalog : Index.t Z :=
  Index.mk None (Some ROOT_DIR)
    [ Item.mk "id-a" "a.mp4" "a.mp4" "" 0 1000;
      Item.mk "id-empty" "empty.mp4" "empty.mp4" "" 0 0;
      Item.mk "id-up" "../../etc/passwd" "passwd" "../../etc" 0 1;
      Item.mk "id-link" "link.mp4" "link.mp4" "" 0 1 ]
    [""].

(** A process serving [/srv/media] whose disk refuses writes. The walk finds
    one video; the live index is still the empty one. *)
Definition walk : list (Walk.entry Z) :=
  [ Walk.mk "a.mp4" true 7 1000; Walk.mk "notes.txt" true 9 12;
    Walk.mk "trips" false 3 4096 ].

Definition empty_index : Index.t Z := Index.mk None None [] [].

Definition read_only_world : World.t Z :=
  World.mk empty_index (Some (parse_path "/srv/media/.reels_index.json"))
           (fun _ => NoFile) false (fun _ => walk) 42
           (fun p => Some p).

Definition writable_world : World.t Z :=
  World.mk empty_index (Some (parse_path "/srv/media/.reels_index.json"))
           (fun _ => NoFile) true (fun _ => walk) 42
           (fun p => Some p).

(** The entry the builder makes of the one video of [walk]. *)
Definition built_item : Item.t Z :=
  Item.mk "f1d6ff1606bb9503" "a.mp4" "a.mp4" "" 7 1000.

End Demo.

(** ** The page and the folder list *)

(** The list [api_folders] returns. *)
Definition api_folders {F : Type} (INDEX : Index.t F) : list string :=
  Index.folders INDEX.

(** [home]: refresh when asked, then the page. [page] is what
    [render_template_string(HTML)] produces. *)
Definition home {F : Type} (str_float : F -> string)
    (float_ltb : F -> F -> bool) (page : string) (args : args_t)
    (ROOT_DIR : string) : M F string :=
  refresh_index_if_requested str_float float_ltb args (parse_path ROOT_DIR) ;;;
  ret page.

(** ** Predicates used in the statements *)

(** Every character is a decimal digit. *)
Fixpoint all_digits (s : string) : bool :=
  match s with
  | EmptyString => true
  | String c s' => andb (is_digit c) (all_digits s')
  end.

(** Decreasing order of a key. *)
Definition desc {A : Type} (key : A -> Z) (a b : A) : Prop := key b <= key a.

(** A part of a canonical path: not empty, no slash inside. *)
Definition clean_part (c : string) : Prop := c <> "" /\ contains c "/" = false.

(** A canonical path: absolute, made of clean parts. *)
Definition canonical (p : PPath.t) : Prop :=
  PPath.anchored p = true /\ Forall clean_part (PPath.parts p).

(** [t] lies strictly below [r]. *)
Definition strict_descendant (r t : PPath.t) : Prop :=
  exists rest, rest <> [] /\ PPath.parts t = (PPath.parts r ++ rest)%list.


(** The walk entries the builder keeps: regular files whose name has a
    video suffix, case ignored. *)
Definition is_video {F : Type} (p : Walk.entry F) : bool :=
  andb (Walk.is_file p)
       (str_mem (lower (name_suffix (path_name (parse_path (Walk.rel p)))))
                VIDEO_EXTS).

(** The catalog entry the builder makes of a walk entry it keeps. *)
Definition item_of {F : Type} (str_float : F -> string) (p : Walk.entry F)
  : Item.t F :=
  let name := path_name (parse_path (Walk.rel p)) in
  let rel := safe_norm (Walk.rel p) in
  let folder := safe_norm (path_str (path_parent (parse_path rel))) in
  let folder := if String.eqb folder "." then "" else folder in
  Item.mk (compute_id str_float rel (Walk.st_mtime p) (Walk.st_size p))
          rel name folder (Walk.st_mtime p) (Walk.st_size p).

(** No entry is older than one that comes after it. *)
Definition newest_first {F : Type} (float_ltb : F -> F -> bool)
    (a b : Item.t F) : Prop :=
  float_ltb (Item.mtime a) (Item.mtime b) = false.

(** The parts of a path, each followed by a slash. *)
Fixpoint join_trailing (parts : list string) : string :=
  match parts with
  | [] => ""
  | p :: ps => p ++ "/" ++ join_trailing ps
  end.



(** ** The definitions at work *)

Example lower_ex : lower "Vacation_Trip.MP4" = "vacation_trip.mp4".
Proof. reflexivity. Qed.

Example strip_ex : strip "  a b  " = "a b".
Proof. reflexivity. Qed.

Example split_ex : re_split_seps "a__b.c-" = ["a"; "b"; "c"; ""].
Proof. reflexivity. Qed.

Example split_lead_ex : re_split_seps "_a b" = [""; "a"; "b"].
Proof. reflexivity. Qed.

Example py_int_ex :
  (py_int " 12 ", py_int "-7", py_int "1_000", py_int "1__0", py_int "abc",
   py_int "", py_int "007")
  = (Some 12, Some (-7), Some 1000, None, None, None, Some 7).
Proof. reflexivity. Qed.

Example str_int_ex : (str_int 0, str_int 1000, str_int (-5)) = ("0", "1000", "-5").
Proof. reflexivity. Qed.

Example sort_desc_ex :
  sort_desc fst [(1, "a"); (3, "b"); (1, "c"); (3, "d"); (2, "e")]
  = [(3, "b"); (3, "d"); (2, "e"); (1, "a"); (1, "c")].
Proof. reflexivity. Qed.

Example slice_ex :
  (slice [1; 2; 3; 4; 5] 1 3, slice [1; 2; 3; 4; 5] 4 9, slice [1; 2; 3; 4; 5] (-2) 5,
   slice [1; 2; 3; 4; 5] 7 9, slice [1; 2; 3; 4; 5] 3 1)
  = ([2; 3], [5], [4; 5], [], []).
Proof. reflexivity. Qed.

Example safe_norm_ex :
  (safe_norm "/a//b\c", safe_norm "///", safe_norm "a/b/", safe_norm "")
  = ("a/b/c", "", "a/b/", "").
Proof. reflexivity. Qed.

Example parse_path_ex :
  (parse_path "/srv//media/./a", parse_path "a/../b", path_str (parse_path "/"),
   path_str (joinpath (parse_path "/srv/m") "x/../../y"),
   path_str (joinpath (parse_path "/srv/m") "/etc/passwd"))
  = (PPath.mk true ["srv"; "media"; "a"], PPath.mk false ["a"; ".."; "b"], "/",
     "/srv/m/x/../../y", "/etc/passwd").
Proof. reflexivity. Qed.

Example match_range_ex :
  (match_range "bytes=200-299", match_range "bytes=900-", match_range "bytes=-5",
   match_range "bytes=0-5,7-9", match_range "items=0-5", match_range " bytes=0-1")
  = (Some ("200", "299"), Some ("900", ""), None, Some ("0", "5"), None, None).
Proof. reflexivity. Qed.

Example unquote_ex : unquote "a%2Fb%2e%2E/%zz%4" = "a/b../%zz%4".
Proof. reflexivity. Qed.

Example sha1_abc :
  Sha1.hexdigest_of "abc" = "a9993e364706816aba3e25717850c26c9cd0d89d".
Proof. vm_compute. reflexivity. Qed.

Example sha1_empty :
  Sha1.hexdigest_of "" = "da39a3ee5e6b4b0d3255bfef95601890afd80709".
Proof. vm_compute. reflexivity. Qed.

Example sha1_two_blocks :
  Sha1.hexdigest_of "abcdbcdecdefdefgefghfghighijhijkijkljklmklmnlmnomnopnopq"
  = "84983e441c3bd26ebaae4aa1f95129e5e54670f1".
Proof. vm_compute. reflexivity. Qed.

Example name_suffix_ex :
  (name_suffix "a.MP4", name_suffix ".mp4", name_suffix "a.tar.gz",
   name_suffix "a.", name_suffix "noext")
  = (".MP4", "", ".gz", "", "").
Proof. reflexivity. Qed.

Example range_200_299 :
  match stream_video Demo.fs Demo.ROOT_DIR Demo.catalog "id-a"
                     (Some "bytes=200-299") with
  | (Resp data status _ headers, _) => (List.length data, status, headers)
  | _ => (O, 0, [])
  end
  = (100%nat, 206,
     [("Content-Range", "bytes 200-299/1000"); ("Accept-Ranges", "bytes");
      ("Content-Length", "100")]).
Proof. vm_compute. reflexivity. Qed.

Example range_500_100 :
  stream_video Demo.fs Demo.ROOT_DIR Demo.catalog "id-a" (Some "bytes=500-100")
  = (Abort 416, []).
Proof. vm_compute. reflexivity. Qed.

Example ranking_ladder_ex :
  map (@Item.filename Z)
      (filter_items
         (Demo.index_of
            [Demo.entry "my_vacation_photos.mp4" "my_vacation_photos.mp4" "";
             Demo.entry "a/trip.vacation-2.mp4" "trip.mp4" "a";
             Demo.entry "vacation_trip.mp4" "vacation_trip.mp4" "";
             Demo.entry "vacation.mp4" "vacation.mp4" ""])
         "vacation" "" None)
  = ["vacation.mp4"; "vacation_trip.mp4"; "my_vacation_photos.mp4"; "trip.mp4"].
Proof. vm_compute. reflexivity. Qed.

(** * Properties *)

(** ** Strings *)

Section StringFacts.

Lemma length_lower (s : string) : String.length (lower s) = String.length s.
Proof. induction s as [|c s IH]; simpl; congruence. Qed.

Lemma len_lower (s : string) : len (lower s) = len s.
Proof. unfold len. now rewrite length_lower. Qed.

Lemma truthy_lower (s : string) : truthy (lower s) = truthy s.
Proof. now destruct s. Qed.

Lemma is_space_lower (c : ascii) : is_space (lower_ascii c) = is_space c.
Proof. destruct c as [[] [] [] [] [] [] [] []]; reflexivity. Qed.

Lemma lstrip_lower (s : string) : lstrip (lower s) = lower (lstrip s).
Proof.
  induction s as [|c s IH]; simpl; [reflexivity|].
  rewrite is_space_lower. now destruct (is_space c).
Qed.

Lemma rstrip_lower (s : string) : rstrip (lower s) = lower (rstrip s).
Proof.
  induction s as [|c s IH]; simpl; [reflexivity|].
  rewrite IH, is_space_lower.
  destruct (rstrip s); simpl; [now destruct (is_space c)|reflexivity].
Qed.

Lemma strip_lower (s : string) : strip (lower s) = lower (strip s).
Proof. unfold strip. now rewrite lstrip_lower, rstrip_lower. Qed.

Lemma rstrip_idem (s : string) : rstrip (rstrip s) = rstrip s.
Proof.
  induction s as [|c s IH]; simpl; [reflexivity|].
  destruct (rstrip s) as [|d t] eqn:E.
  - destruct (is_space c) eqn:Ec; simpl; [reflexivity|now rewrite Ec].
  - change (rstrip (String c (String d t))) with
      (match rstrip (String d t) with
       | EmptyString => if is_space c then EmptyString else String c EmptyString
       | u => String c u
       end).
    now rewrite IH.
Qed.

(** A string that does not begin with a blank keeps its first character
    under [rstrip]. *)
Lemma lstrip_rstrip_fixed (s : string) :
  lstrip s = s -> lstrip (rstrip s) = rstrip s.
Proof.
  destruct s as [|c s]; [reflexivity|].
  simpl. destruct (is_space c) eqn:Ec.
  - intros H. exfalso.
    assert (L : (String.length (lstrip s) <= String.length s)%nat).
    { clear. induction s as [|d s IH]; simpl; [lia|].
      destruct (is_space d); simpl; lia. }
    rewrite H in L. simpl in L. lia.
  - intros _. destruct (rstrip s); simpl; now rewrite Ec.
Qed.

Lemma lstrip_idem (s : string) : lstrip (lstrip s) = lstrip s.
Proof.
  induction s as [|c s IH]; simpl; [reflexivity|].
  destruct (is_space c) eqn:Ec; [exact IH|]. simpl. now rewrite Ec.
Qed.

Lemma strip_idem (s : string) : strip (strip s) = strip s.
Proof.
  unfold strip.
  rewrite (lstrip_rstrip_fixed (lstrip s) (lstrip_idem s)).
  apply rstrip_idem.
Qed.

Lemma truthy_empty (s : string) : truthy s = false -> s = "".
Proof. now destruct s. Qed.

End StringFacts.

(** ** The stable sort *)

Section SortFacts.
Context {A : Type}.

Lemma insert_by_perm (before : A -> A -> bool) (x : A) (l : list A) :
  Permutation (insert_by before x l) (x :: l).
Proof.
  induction l as [|y l IH]; simpl; [reflexivity|].
  destruct (before y x); [|reflexivity].
  rewrite IH. apply perm_swap.
Qed.

Lemma sort_by_perm (before : A -> A -> bool) (l : list A) :
  Permutation (sort_by before l) l.
Proof.
  induction l as [|x l IH]; simpl; [reflexivity|].
  rewrite insert_by_perm. now constructor.
Qed.

Lemma sort_by_in (before : A -> A -> bool) (l : list A) (x : A) :
  In x (sort_by before l) <-> In x l.
Proof.
  split; apply Permutation_in;
    [apply sort_by_perm | apply Permutation_sym, sort_by_perm].
Qed.

Variable key : A -> Z.

Lemma insert_desc_sorted (x : A) (l : list A) :
  StronglySorted (desc key) l ->
  StronglySorted (desc key) (insert_by (fun y x => key x <? key y) x l).
Proof.
  induction 1 as [|y l Hl IH Hy]; simpl.
  - repeat constructor.
  - destruct (key x <? key y) eqn:E.
    + constructor; [exact IH|].
      eapply Permutation_Forall;
        [apply Permutation_sym, insert_by_perm|].
      constructor; [unfold desc; lia | exact Hy].
    + constructor; [now constructor|].
      constructor; [unfold desc; lia|].
      eapply Forall_impl; [|exact Hy]. unfold desc. intros; lia.
Qed.

Lemma sort_desc_sorted (l : list A) :
  StronglySorted (desc key) (sort_desc key l).
Proof.
  unfold sort_desc.
  induction l as [|x l IH]; simpl; [constructor|].
  now apply insert_desc_sorted.
Qed.

Lemma sort_desc_perm (l : list A) : Permutation (sort_desc key l) l.
Proof. apply sort_by_perm. Qed.

(** Stability: the elements of one key keep their order. *)
Lemma insert_desc_stable (k : Z) (x : A) (l : list A) :
  filter (fun a => key a =? k) (insert_by (fun y x => key x <? key y) x l)
  = filter (fun a => key a =? k) (x :: l).
Proof.
  induction l as [|y l IH]; [reflexivity|].
  cbn [insert_by]. destruct (key x <? key y) eqn:E; [|reflexivity].
  cbn [filter] in *. rewrite IH.
  destruct (key x =? k) eqn:Ex; destruct (key y =? k) eqn:Ey;
    try reflexivity; lia.
Qed.

Lemma sort_desc_stable (k : Z) (l : list A) :
  filter (fun a => key a =? k) (sort_desc key l)
  = filter (fun a => key a =? k) l.
Proof.
  unfold sort_desc.
  induction l as [|x l IH]; [reflexivity|].
  cbn [sort_by]. rewrite insert_desc_stable. cbn [filter]. now rewrite IH.
Qed.
End SortFacts.

Lemma sort_by_map {A B : Type} (g : A -> B) (before : B -> B -> bool)
    (l : list A) :
  sort_by before (map g l)
  = map g (sort_by (fun y x => before (g y) (g x)) l).
Proof.
  induction l as [|x l IH]; [reflexivity|].
  cbn [map sort_by]. rewrite IH.
  generalize (sort_by (fun y x0 => before (g y) (g x0)) l) as m.
  induction m as [|y m IHm]; [reflexivity|].
  cbn [map insert_by]. destruct (before (g y) (g x)); cbn [map]; congruence.
Qed.

Lemma sort_by_ext {A : Type} (b1 b2 : A -> A -> bool) (l : list A) :
  (forall y x, b1 y x = b2 y x) -> sort_by b1 l = sort_by b2 l.
Proof.
  intros H. induction l as [|x l IH]; [reflexivity|].
  cbn [sort_by]. rewrite IH.
  generalize (sort_by b2 l) as m.
  induction m as [|y m IHm]; [reflexivity|].
  cbn [insert_by]. rewrite H, IHm. reflexivity.
Qed.

Lemma filter_filter {A : Type} (f g : A -> bool) (l : list A) :
  filter f (filter g l) = filter (fun x => andb (g x) (f x)) l.
Proof.
  induction l as [|x l IH]; [reflexivity|].
  cbn [filter]. destruct (g x); cbn [filter andb]; rewrite IH; reflexivity.
Qed.

Lemma filter_all {A : Type} (l : list A) : filter (fun _ => true) l = l.
Proof. induction l as [|x l IH]; cbn; congruence. Qed.

(** ** Ranking engine *)

Section Ranking.
Context {F : Type}.

Lemma token_loop_sum (f r : string) (ts : list string) (acc : Z) :
  fold_left (token_step f r) ts acc
  = acc + fold_right Z.add 0
            (map (Spec.token_score f r) (filter truthy ts)).
Proof.
  revert acc. induction ts as [|t ts IH]; intros acc; cbn [fold_left].
  - cbn. lia.
  - rewrite IH. unfold token_step. cbn [filter].
    destruct (truthy t); cbn [negb map fold_right]; [|reflexivity].
    unfold Spec.token_score.
    destruct (contains f t); [lia|]. destruct (contains r t); lia.
Qed.

(** On a stripped, non-empty query [score_match] computes the ladder. *)
Lemma score_match_ladder (q fileName relativePath : string) :
  strip q = q -> truthy q = true ->
  score_match q fileName relativePath = Spec.ladder q fileName relativePath.
Proof.
  intros Hs Ht. unfold score_match, Spec.ladder, Spec.tokens.
  rewrite strip_lower, Hs, truthy_lower, Ht. cbn [negb].
  rewrite !len_lower, token_loop_sum. reflexivity.
Qed.

Lemma scored_items_map (q : string) (items : list (Item.t F)) :
  scored_items q items
  = map (fun it => (score_match q (Item.filename it) (Item.relpath it), it))
        (filter (fun it =>
                   0 <? score_match q (Item.filename it) (Item.relpath it))
                items).
Proof.
  unfold scored_items.
  induction items as [|it items IH]; [reflexivity|].
  cbn [flat_map filter].
  destruct (0 <? score_match q (Item.filename it) (Item.relpath it));
    cbn [map app]; now rewrite IH.
Qed.

(** The entries that survive the folder and prefix filters are what
    [filter_items] returns for the empty query. *)
Lemma filter_items_unfold (INDEX : Index.t F) (q folder : string)
    (sw : option string) :
  filter_items INDEX q folder sw
  = if negb (truthy (strip q)) then filter_items INDEX "" folder sw
    else map snd (sort_desc fst
                    (scored_items (strip q)
                                  (filter_items INDEX "" folder sw))).
Proof. reflexivity. Qed.

Lemma filter_items_ranked (INDEX : Index.t F) (q folder : string)
    (sw : option string) :
  truthy (strip q) = true ->
  filter_items INDEX q folder sw
  = sort_desc (Spec.score (strip q))
      (filter (fun it => 0 <? Spec.score (strip q) it)
              (filter_items INDEX "" folder sw)).
Proof.
  intros Ht. rewrite filter_items_unfold, Ht. cbn [negb].
  rewrite scored_items_map. unfold sort_desc.
  rewrite (sort_by_map
             (fun it => (score_match (strip q) (Item.filename it)
                                     (Item.relpath it), it))
             (fun y x => fst x <? fst y)).
  rewrite map_map. cbn [snd fst]. rewrite map_id.
  assert (E : forall it : Item.t F,
             score_match (strip q) (Item.filename it) (Item.relpath it)
             = Spec.score (strip q) it).
  { intros it. apply score_match_ladder; [apply strip_idem|exact Ht]. }
  rewrite (filter_ext _ (fun it => 0 <? Spec.score (strip q) it))
    by (intros it; now rewrite E).
  apply sort_by_ext. intros y x. now rewrite !E.
Qed.
End Ranking.

(** C6, as the code has it. For a query [q] that is not blank, each entry
    left by the folder and prefix filters is scored by the ladder (1000 for
    the file name itself, 800 or 500 less the extra length for a substring of
    the name or of the path, else 120 or 60 per token); the entries whose
    score is positive are returned, those scoring 0 or less are dropped; the
    result is in decreasing score and entries of equal score keep their
    catalog order. *)
Theorem C6_ladder_positive_scores_ranked
    {F : Type} (INDEX : Index.t F) (q0 folder : string) (sw : option string) :
  let q := strip q0 in
  let entries := filter_items INDEX "" folder sw in
  let result := filter_items INDEX q0 folder sw in
  truthy q = true ->
  (forall fileName relativePath,
      score_match q fileName relativePath
      = Spec.ladder q fileName relativePath)
  /\ Permutation result (filter (fun it => 0 <? Spec.score q it) entries)
  /\ StronglySorted (desc (Spec.score q)) result
  /\ (forall s,
         filter (fun it => Spec.score q it =? s) result
         = filter (fun it => andb (0 <? Spec.score q it)
                                  (Spec.score q it =? s)) entries).
Proof.
  intros q entries result Ht. subst q entries result.
  rewrite (filter_items_ranked INDEX q0 folder sw Ht).
  split; [|split; [|split]].
  - intros f r. apply score_match_ladder; [apply strip_idem|exact Ht].
  - apply sort_desc_perm.
  - apply (sort_desc_sorted (Spec.score (strip q0))).
  - intros s. rewrite sort_desc_stable. apply filter_filter.
Qed.

Lemma C6_ladder_positive_scores_ranked_witness :
  let INDEX := Demo.index_of [Demo.repeated; Demo.single; Demo.deep] in
  truthy (strip " a ") = true
  /\ Permutation (filter_items INDEX " a " "" None)
       (filter (fun it => 0 <? Spec.score (strip " a ") it)
               (filter_items INDEX "" "" None)).
Proof.
  intros INDEX. split; [reflexivity|].
  apply (C6_ladder_positive_scores_ranked INDEX " a " "" None). reflexivity.
Defined.

(** C6 as stated fails: an entry three long directories deep scores -109
    on the path tier for the query [zz]; the stated rule drops only the
    score 0 and keeps it, the code drops it. *)
Lemma C6_negative_score_dropped :
  Spec.score "zz" Demo.deep = -109
  /\ Spec.ranked "zz" (filter_items (Demo.index_of [Demo.deep]) "" "" None)
     = [Demo.deep]
  /\ filter_items (Demo.index_of [Demo.deep]) "zz" "" None = [].
Proof. vm_compute. repeat split. Qed.

(** C2 at the failing input. The query [a a a a a a a] is a substring of
    the first file name and reaches the second entry through its tokens
    only; the token sum 840 exceeds 796 and the second entry is ranked
    first. *)
Theorem C2_tokens_outrank_filename_substring :
  let q := Demo.seven in
  contains (lower (Item.filename Demo.repeated)) q = true
  /\ contains (lower (Item.filename Demo.single)) q = false
  /\ contains (lower (Item.relpath Demo.single)) q = false
  /\ score_match q (Item.filename Demo.repeated) (Item.relpath Demo.repeated)
     = 796
  /\ score_match q (Item.filename Demo.single) (Item.relpath Demo.single)
     = 840
  /\ filter_items (Demo.index_of [Demo.repeated; Demo.single]) q "" None
     = [Demo.single; Demo.repeated].
Proof. vm_compute. repeat split. Qed.

(** C9, as the code has it. With an empty query, [filter_items] returns, in
    catalog order, the entries that pass the folder test for the scope after
    [safe_norm] (no test when the normalised scope is empty) and the prefix
    test for the prefix after [strip] (no test when that is empty). When the
    scope is already normalised and not empty and the prefix is already
    stripped, this is the filter of the specification. *)
Theorem C9_scope_after_normalisation
    {F : Type} (INDEX : Index.t F) (q f : string) (p : option string) :
  strip q = "" ->
  let f' := safe_norm f in
  let p' := match p with Some s => strip s | None => "" end in
  filter_items INDEX q f p
  = filter (fun it => andb (orb (negb (truthy f')) (Spec.in_scope f' it))
                           (Spec.has_prefix p' it))
           (Index.items INDEX)
  /\ (truthy f' = true -> filter_items INDEX q f p
                          = Spec.scoped f' p' (Index.items INDEX)).
Proof.
  intros Hq f' p'.
  assert (E : filter_items INDEX q f p
              = filter (fun it => andb (orb (negb (truthy f'))
                                            (Spec.in_scope f' it))
                                       (Spec.has_prefix p' it))
                       (Index.items INDEX)).
  { unfold filter_items. rewrite Hq. cbn [truthy negb].
    fold f'. unfold Spec.has_prefix, Spec.in_scope, in_folder.
    assert (Hp : forall l : list (Item.t F),
               match p with
               | Some sw0 =>
                   if truthy sw0 then
                     if truthy (lower (strip sw0))
                     then filter (fun it => startswith
                                              (lower (Item.filename it))
                                              (lower (strip sw0))) l
                     else l
                   else l
               | None => l
               end
               = filter (fun it => orb (negb (truthy p'))
                                       (startswith (lower (Item.filename it))
                                                   (lower p'))) l).
    { intros l. subst p'. destruct p as [sw0|]; cbn [truthy negb orb].
      - destruct (truthy sw0) eqn:E0.
        + rewrite truthy_lower. destruct (truthy (strip sw0));
            cbn [negb orb]; [reflexivity|now rewrite filter_all].
        + apply truthy_empty in E0. subst sw0. cbn. now rewrite filter_all.
      - now rewrite filter_all. }
    rewrite Hp. destruct (truthy f'); cbn [negb orb andb].
    - apply filter_filter.
    - apply filter_ext. intros it. reflexivity. }
  split; [exact E|].
  intros Hf. rewrite E. unfold Spec.scoped. apply filter_ext.
  intros it. now rewrite Hf.
Qed.

Lemma C9_scope_after_normalisation_witness :
  filter_items (Demo.index_of [Demo.top; Demo.nested]) "  " "//trips" None
  = [Demo.nested].
Proof.
  destruct (C9_scope_after_normalisation
              (Demo.index_of [Demo.top; Demo.nested]) "  " "//trips" None
              eq_refl) as [E _].
  rewrite E. vm_compute. reflexivity.
Defined.

(** C9 as stated fails: the scope [/] is not empty, no folder equals it or
    begins with [//], yet the code, which normalises it to the empty scope,
    returns the whole catalog. *)
Lemma C9_slash_scope_returns_all :
  truthy "/" = true
  /\ Spec.scoped "/" "" [Demo.top; Demo.nested] = []
  /\ filter_items (Demo.index_of [Demo.top; Demo.nested]) "" "/" None
     = [Demo.top; Demo.nested].
Proof. vm_compute. repeat split. Qed.

(** ** Pagination and the query endpoints *)

(** A slice with bounds that are not negative is a [skipn] followed by a
    [firstn]. *)
Lemma slice_window {A : Type} (l : list A) (a b : Z) :
  0 <= a -> 0 <= b ->
  slice l a (a + b) = firstn (Z.to_nat b) (skipn (Z.to_nat a) l).
Proof.
  intros Ha Hb. unfold slice, slice_index.
  destruct (Z.ltb_spec a 0) as [?|_]; [lia|].
  destruct (Z.ltb_spec (a + b) 0) as [?|_]; [lia|].
  set (n := Z.of_nat (List.length l)).
  destruct (Z.le_gt_cases n a) as [Hge|Hlt].
  - rewrite (skipn_all2 l (n := Z.to_nat a)) by (subst n; lia).
    rewrite (skipn_all2 l (n := Z.to_nat (Z.min a n))) by (subst n; lia).
    now rewrite !firstn_nil.
  - replace (Z.min a n) with a by lia.
    destruct (Z.le_gt_cases b (n - a)) as [Hb'|Hb'].
    + replace (Z.min (a + b) n - a) with b by lia. reflexivity.
    + replace (Z.min (a + b) n - a) with (n - a) by lia.
      rewrite !firstn_all2; [reflexivity| |];
        rewrite length_skipn; subst n; lia.
Qed.

Lemma args_get_other (args : args_t) (k v key default : string) :
  String.eqb k key = false ->
  args_get ((k, v) :: args) key default = args_get args key default.
Proof. intros H. cbn [args_get]. now rewrite H. Qed.



(** C3, as the code has it. The feed endpoint answers 400 when the offset
    or the limit does not parse. The suggestion endpoint never answers 400
    for them: a limit that does not parse is replaced by 8, and the offset is
    not read at all. *)
Theorem C3_feed_rejects_suggest_defaults
    {F : Type} (INDEX : Index.t F) (args : args_t) :
  (py_int (args_get args "offset" "0") = None
   \/ py_int (args_get args "limit" "12") = None ->
   api_feed INDEX args = (FeedError "bad offset/limit", 400))
  /\ (py_int (args_get args "limit" "8") = None ->
      api_suggest INDEX args = api_suggest INDEX (("limit", "8") :: args)
      /\ snd (api_suggest INDEX args) = 200)
  /\ (forall v, api_suggest INDEX (("offset", v) :: args)
                = api_suggest INDEX args).
Proof.
  split; [|split].
  - unfold api_feed. change (str_int DEFAULT_PAGE_SIZE) with "12".
    intros [H|H]; rewrite H; [reflexivity|].
    now destruct (py_int (args_get args "offset" "0")).
  - intros H. split; [|reflexivity].
    unfold api_suggest, starts_with_arg.
    rewrite !(args_get_other args "limit" "8") by reflexivity.
    rewrite H. reflexivity.
  - intros v. unfold api_suggest, starts_with_arg.
    now rewrite !(args_get_other args "offset" v) by reflexivity.
Qed.

Lemma C3_feed_rejects_suggest_defaults_witness :
  api_feed Demo.catalog [("offset", "1x")] = (FeedError "bad offset/limit", 400)
  /\ api_feed Demo.catalog [("limit", "")] = (FeedError "bad offset/limit", 400)
  /\ snd (api_suggest Demo.catalog [("limit", "many")]) = 200.
Proof.
  split; [|split].
  - apply (C3_feed_rejects_suggest_defaults Demo.catalog [("offset", "1x")]).
    left. reflexivity.
  - apply (C3_feed_rejects_suggest_defaults Demo.catalog [("limit", "")]).
    right. reflexivity.
  - apply (C3_feed_rejects_suggest_defaults Demo.catalog [("limit", "many")]).
    reflexivity.
Defined.

(** C3 as stated fails on the suggestion endpoint: the limit [abc] does not
    parse, and the answer is the 200 answer of the default limit 8. *)
Lemma C3_suggest_bad_limit_answers_200 :
  py_int "abc" = None
  /\ snd (api_suggest Demo.catalog [("limit", "abc")]) = 200
  /\ api_suggest Demo.catalog [("limit", "abc")]
     = api_suggest Demo.catalog [("limit", "8")].
Proof. vm_compute. repeat split. Qed.

(** ** Range streamer *)

Section Digits.

Lemma digit_facts (c : ascii) :
  is_digit c = true ->
  is_space c = false /\ Ascii.eqb c "-" = false /\ Ascii.eqb c "+" = false
  /\ 0 <= digit_val c <= 9.
Proof.
  destruct c as [[] [] [] [] [] [] [] []]; intros H; vm_compute in H;
    try discriminate H; repeat split; try reflexivity;
    vm_compute; discriminate.
Qed.

Lemma rstrip_digits (s : string) : all_digits s = true -> rstrip s = s.
Proof.
  induction s as [|c s IH]; [reflexivity|].
  cbn [all_digits rstrip]. intros H. apply andb_prop in H as [Hc Hs].
  rewrite (IH Hs). destruct s; [|reflexivity].
  now destruct (digit_facts c Hc) as [-> _].
Qed.

Lemma strip_digits (s : string) : all_digits s = true -> strip s = s.
Proof.
  intros H. unfold strip.
  assert (L : lstrip s = s).
  { destruct s as [|c s]; [reflexivity|]. cbn in *.
    apply andb_prop in H as [Hc _].
    now destruct (digit_facts c Hc) as [-> _]. }
  rewrite L. now apply rstrip_digits.
Qed.

Lemma int_body_digits (s : string) (prev : bool) (acc : Z) :
  all_digits s = true ->
  int_body prev acc s
  = match s with
    | EmptyString => if prev then Some acc else None
    | _ => Some (digits_val acc s)
    end.
Proof.
  revert prev acc. induction s as [|c s IH]; intros prev acc H;
    [reflexivity|].
  cbn [all_digits] in H. apply andb_prop in H as [Hc Hs].
  cbn [int_body digits_val]. rewrite Hc, (IH true _ Hs).
  now destruct s.
Qed.

(** [int] of a non-empty run of digits is its decimal value. *)
Lemma py_int_digits (s : string) :
  all_digits s = true -> truthy s = true -> py_int s = Some (digits_val 0 s).
Proof.
  intros H Ht. unfold py_int. rewrite (strip_digits s H).
  destruct s as [|c s]; [discriminate Ht|].
  assert (Hc : is_digit c = true) by (cbn in H; now apply andb_prop in H).
  destruct (digit_facts c Hc) as (_ & -> & -> & _).
  now rewrite (int_body_digits (String c s) false 0 H).
Qed.

Lemma digits_val_nonneg (s : string) (acc : Z) :
  all_digits s = true -> 0 <= acc -> 0 <= digits_val acc s.
Proof.
  revert acc. induction s as [|c s IH]; intros acc H Hacc; [exact Hacc|].
  cbn [all_digits] in H. apply andb_prop in H as [Hc Hs].
  cbn [digits_val]. apply IH; [exact Hs|].
  destruct (digit_facts c Hc) as (_ & _ & _ & ?). lia.
Qed.

Lemma span_digits_all (s : string) : all_digits (fst (span_digits s)) = true.
Proof.
  induction s as [|c s IH]; [reflexivity|].
  cbn [span_digits]. destruct (is_digit c) eqn:Ec; [|reflexivity].
  destruct (span_digits s) as [d r]. cbn in *. now rewrite Ec, IH.
Qed.

(** The groups of a matched range header: digits, the first not empty. *)
Lemma match_range_groups (h g1 g2 : string) :
  match_range h = Some (g1, g2) ->
  truthy h = true
  /\ all_digits g1 = true /\ truthy g1 = true /\ all_digits g2 = true.
Proof.
  unfold match_range. intros H.
  split; [destruct h; [discriminate H|reflexivity]|].
  destruct (strip_prefix "bytes=" h) as [rest|]; [|discriminate H].
  pose proof (span_digits_all rest) as A1.
  destruct (span_digits rest) as [d1 r1]. cbn [fst] in A1.
  destruct (truthy d1) eqn:T1; cbn [negb] in H; [|discriminate H].
  destruct r1 as [|c r2]; [discriminate H|].
  destruct (Ascii.eqb c "-") eqn:Ec.
  - apply Ascii.eqb_eq in Ec. subst c.
    pose proof (span_digits_all r2) as A2.
    destruct (span_digits r2) as [d2 r3]. cbn [fst] in A2.
    injection H as <- <-. now repeat split.
  - exfalso. destruct c as [[] [] [] [] [] [] [] []];
      try discriminate H; discriminate Ec.
Qed.

End Digits.

(** The range branch of [serve_range] on a regular file, the numbers
    already read. *)
Lemma serve_range_file (fs : FS.t) (target : PPath.t)
    (content : list Byte.byte) (g1 g2 : string) :
  FS.lookup fs target = File content ->
  all_digits g1 = true -> truthy g1 = true -> all_digits g2 = true ->
  let size := Z.of_nat (List.length content) in
  let start := digits_val 0 g1 in
  let end_ := Z.min (if truthy g2 then digits_val 0 g2 else size - 1)
                    (size - 1) in
  serve_range fs target g1 g2
  = if end_ <? start then (Abort 416, [])
    else (Resp (file_read content start (end_ - start + 1)) 206 "video/mp4"
               [("Content-Range",
                 "bytes " ++ str_int start ++ "-" ++ str_int end_
                          ++ "/" ++ str_int size);
                ("Accept-Ranges", "bytes");
                ("Content-Length", str_int (end_ - start + 1))],
          [IoRead (path_str target) start (end_ - start + 1)]).
Proof.
  intros Hf A1 T1 A2 size start end_. unfold serve_range. rewrite Hf.
  rewrite (py_int_digits g1 A1 T1). fold size start.
  destruct (truthy g2) eqn:T2.
  - rewrite (py_int_digits g2 A2 T2). reflexivity.
  - reflexivity.
Qed.

Lemma file_read_length (content : list Byte.byte) (start length : Z) :
  0 <= start -> 0 <= length ->
  start + length <= Z.of_nat (List.length content) ->
  Z.of_nat (List.length (file_read content start length)) = length.
Proof.
  intros Hs Hl Hb. unfold file_read.
  rewrite length_firstn, length_skipn. lia.
Qed.





(** ** Path containment *)

Section Containment.

Lemma append_assoc (a b c : string) : (a ++ b) ++ c = a ++ (b ++ c).
Proof. induction a as [|x a IH]; cbn; congruence. Qed.


Lemma prefix_cons (a b : ascii) (p s : string) :
  String.prefix (String a p) (String b s) = true ->
  a = b /\ String.prefix p s = true.
Proof.
  change (String.prefix (String a p) (String b s))
    with (if ascii_dec a b then String.prefix p s else false).
  destruct (ascii_dec a b); [now split|discriminate].
Qed.

Lemma prefix_length (p s : string) :
  String.prefix p s = true -> (String.length p <= String.length s)%nat.
Proof.
  revert s. induction p as [|a p IH]; intros s H; cbn [String.length]; [lia|].
  destruct s as [|b s]; [discriminate H|].
  apply prefix_cons in H as [_ H]. specialize (IH s H).
  cbn [String.length]. lia.
Qed.

Lemma prefix_app_r (p s u : string) :
  String.prefix p s = true -> String.prefix p (s ++ u) = true.
Proof.
  revert s. induction p as [|a p IH]; intros s H;
    [now destruct (s ++ u)|].
  destruct s as [|b s]; [discriminate H|].
  apply prefix_cons in H as [-> H].
  change (String.prefix (String b p) (String b s ++ u))
    with (if ascii_dec b b then String.prefix p (s ++ u) else false).
  destruct (ascii_dec b b); [now apply IH|congruence].
Qed.

Lemma length_append (a b : string) :
  String.length (a ++ b) = (String.length a + String.length b)%nat.
Proof. induction a as [|x a IH]; cbn; congruence. Qed.

(** A part without slash does not begin with one. *)
Lemma no_slash_head (c : ascii) (s : string) :
  contains (String c s) "/" = false -> c <> "/"%char /\ contains s "/" = false.
Proof.
  cbn [contains]. intros H. apply orb_false_elim in H as [H1 H2].
  split; [|exact H2]. intros ->.
  change (String.prefix "/" (String "/" s))
    with (if ascii_dec "/" "/" then String.prefix "" s else false) in H1.
  destruct (ascii_dec "/" "/"); [|congruence]. now destruct s.
Qed.

(** Two parts without slash, each followed by a slash: when one text begins
    with the other, the parts are equal. *)
Lemma prefix_part (a b R T : string) :
  contains a "/" = false -> contains b "/" = false ->
  String.prefix (a ++ "/" ++ R) (b ++ "/" ++ T) = true ->
  a = b /\ String.prefix R T = true.
Proof.
  revert b. induction a as [|x a IH]; intros b Ha Hb H.
  - destruct b as [|y b].
    + apply prefix_cons in H as [_ H]. now split.
    + exfalso. destruct (no_slash_head y b Hb) as [Hy _].
      apply prefix_cons in H as [E _]. congruence.
  - destruct (no_slash_head x a Ha) as [Hx Ha'].
    destruct b as [|y b].
    + exfalso. apply prefix_cons in H as [E _]. congruence.
    + destruct (no_slash_head y b Hb) as [_ Hb'].
      apply prefix_cons in H as [<- H].
      destruct (IH b Ha' Hb' H) as [-> HP]. now split.
Qed.

Lemma prefix_join_trailing (r t : list string) :
  Forall clean_part r -> Forall clean_part t ->
  String.prefix (join_trailing r) (join_trailing t) = true ->
  exists rest, t = (r ++ rest)%list.
Proof.
  intros Hr. revert t. induction Hr as [|a r Ha Hr IH]; intros t Ht H.
  - now exists t.
  - destruct Ht as [|b t Hb Ht].
    + exfalso. cbn in H. destruct a; cbn in H; discriminate H.
    + cbn [join_trailing] in H.
      destruct (prefix_part a b _ _ (proj2 Ha) (proj2 Hb) H) as [-> HP].
      destruct (IH t Ht HP) as [rest ->]. now exists rest.
Qed.

Lemma join_slash_trailing (r : list string) :
  r <> [] -> join_slash r ++ "/" = join_trailing r.
Proof.
  induction r as [|a r IH]; [congruence|]. intros _.
  destruct r as [|b r].
  - reflexivity.
  - change (join_slash (a :: b :: r)) with (a ++ "/" ++ join_slash (b :: r)).
    change (join_trailing (a :: b :: r))
      with (a ++ "/" ++ join_trailing (b :: r)).
    rewrite <- (IH ltac:(discriminate)), append_assoc. reflexivity.
Qed.

(** The textual test of [is_within_root] holds only below the root. *)
Lemma startswith_sep_descendant (r t : PPath.t) :
  canonical r -> canonical t ->
  startswith (path_str t) (path_str r ++ os_sep) = true ->
  strict_descendant r t.
Proof.
  intros [Ar Cr] [At Ct]. unfold startswith, path_str, os_sep.
  rewrite Ar, At. intros H.
  change (String.prefix (String "/" (join_slash (PPath.parts r) ++ "/"))
                        (String "/" (join_slash (PPath.parts t))) = true) in H.
  apply prefix_cons in H as [_ H].
  unfold strict_descendant.
  destruct (PPath.parts r) as [|a r'] eqn:Er.
  - exfalso.
    change (String.prefix (String "/" "") (join_slash (PPath.parts t)) = true)
      in H.
    destruct (PPath.parts t) as [|b t']; [discriminate H|].
    inversion Ct as [|? ? [Hne Hb] _]; subst.
    destruct b as [|c b]; [congruence|].
    destruct (no_slash_head c b Hb) as [Hc _].
    assert (E : exists s, join_slash (String c b :: t') = String c s).
    { destruct t'; [now exists b|]. now eexists. }
    destruct E as [s E]. rewrite E in H.
    apply prefix_cons in H as [E' _]. congruence.
  - rewrite join_slash_trailing in H by discriminate.
    assert (Ht : PPath.parts t <> []).
    { intros E. rewrite E in H. destruct a; discriminate H. }
    pose proof (prefix_app_r _ _ "/" H) as H'.
    rewrite (join_slash_trailing _ Ht) in H'.
    destruct (prefix_join_trailing _ _ Cr Ct H') as [rest E].
    exists rest. split; [|exact E].
    intros ->. rewrite app_nil_r in E. rewrite E in H.
    rewrite <- join_slash_trailing in H by discriminate.
    apply prefix_length in H. rewrite length_append in H. cbn in H. lia.
Qed.

Lemma path_eqb_eq (p q : PPath.t) : path_eqb p q = true -> p = q.
Proof.
  unfold path_eqb. destruct p as [a ps], q as [b qs].
  cbn [PPath.anchored PPath.parts].
  intros H. apply andb_prop in H as [H1 H2].
  apply Bool.eqb_prop in H1.
  destruct (list_eq_dec string_dec ps qs); [congruence|discriminate H2].
Qed.

(** A target resolved outside the resolved root fails the test. *)
Lemma is_within_root_outside (fs : FS.t) (root target r t : PPath.t) :
  FS.resolve fs root = Some r -> FS.resolve fs target = Some t ->
  canonical r -> canonical t ->
  t <> r -> ~ strict_descendant r t ->
  is_within_root fs root target = false.
Proof.
  intros Hr Ht Cr Ct Hne Hnd. unfold is_within_root. rewrite Hr, Ht.
  apply orb_false_intro.
  - destruct (startswith (path_str t) (path_str r ++ os_sep)) eqn:E;
      [|reflexivity].
    exfalso. apply Hnd. now apply startswith_sep_descendant.
  - destruct (path_eqb t r) eqn:E; [|reflexivity].
    exfalso. apply Hne. now apply path_eqb_eq.
Qed.

End Containment.

(** C7. At both endpoints, a target whose canonical resolution is neither
    the canonical root nor strictly below it is answered 404, whatever lies
    at that place; this covers relative paths with [..] parts and links that
    lead out of the root, both being the work of [resolve]. *)
Theorem C7_escaping_target_not_found
    {F : Type} (fs : FS.t) (ROOT_DIR : string) (root r : PPath.t) :
  FS.resolve fs (parse_path ROOT_DIR) = Some root ->
  FS.resolve fs root = Some r ->
  canonical r ->
  (forall (INDEX : Index.t F) (item_id : string)
          (range_header : option string) (it : Item.t F) (target t : PPath.t),
      get_item_by_id INDEX item_id = Some it ->
      FS.resolve fs (joinpath root (Item.relpath it)) = Some target ->
      FS.resolve fs target = Some t ->
      canonical t ->
      t <> r -> ~ strict_descendant r t ->
      stream_video fs ROOT_DIR INDEX item_id range_header = (Abort 404, []))
  /\ (forall (relpath : string) (target t : PPath.t),
         FS.resolve fs (joinpath root (safe_norm (unquote relpath)))
         = Some target ->
         FS.resolve fs target = Some t ->
         canonical t ->
         t <> r -> ~ strict_descendant r t ->
         open_file fs ROOT_DIR relpath = Abort 404).
Proof.
  intros Hroot Hr Cr. split.
  - intros INDEX item_id rh it target t Hit Htarget Ht Ct Hne Hnd.
    unfold stream_video. rewrite Hroot, Hit, Htarget.
    now rewrite (is_within_root_outside fs root target r t Hr Ht Cr Ct Hne Hnd).
  - intros relpath target t Htarget Ht Ct Hne Hnd.
    unfold open_file. rewrite Hroot, Htarget.
    now rewrite (is_within_root_outside fs root target r t Hr Ht Cr Ct Hne Hnd).
Qed.

Lemma C7_escaping_target_not_found_witness :
  FS.lookup Demo.fs (PPath.mk true ["etc"; "passwd"])
  = File [byte_of_ascii "r"]
  /\ stream_video Demo.fs Demo.ROOT_DIR Demo.catalog "id-up" None
     = (Abort 404, [])
  /\ stream_video Demo.fs Demo.ROOT_DIR Demo.catalog "id-link" None
     = (Abort 404, [])
  /\ open_file Demo.fs Demo.ROOT_DIR "..%2F..%2Fetc/passwd" = Abort 404.
Proof.
  assert (Cr : canonical (PPath.mk true ["srv"; "media"])).
  { split; [reflexivity|]. repeat constructor; discriminate. }
  assert (Ct : canonical (PPath.mk true ["etc"; "passwd"])).
  { split; [reflexivity|]. repeat constructor; discriminate. }
  assert (Hnd : ~ strict_descendant (PPath.mk true ["srv"; "media"])
                                    (PPath.mk true ["etc"; "passwd"])).
  { intros [rest [_ E]]. discriminate E. }
  destruct (C7_escaping_target_not_found (F := Z) Demo.fs Demo.ROOT_DIR
              (PPath.mk true ["srv"; "media"]) (PPath.mk true ["srv"; "media"])
              eq_refl eq_refl Cr) as [Hs Ho].
  split; [reflexivity|]. split; [|split].
  - apply (Hs Demo.catalog "id-up" None
              (Item.mk "id-up" "../../etc/passwd" "passwd" "../../etc" 0 1)
              (PPath.mk true ["etc"; "passwd"])
              (PPath.mk true ["etc"; "passwd"]));
      try reflexivity; try assumption; discriminate.
  - apply (Hs Demo.catalog "id-link" None
              (Item.mk "id-link" "link.mp4" "link.mp4" "" 0 1)
              (PPath.mk true ["etc"; "passwd"])
              (PPath.mk true ["etc"; "passwd"]));
      try reflexivity; try assumption; discriminate.
  - apply (Ho "..%2F..%2Fetc/passwd" (PPath.mk true ["etc"; "passwd"])
              (PPath.mk true ["etc"; "passwd"]));
      try reflexivity; try assumption; discriminate.
Defined.

(** ** Identifiers *)

Section Identifiers.
Context {F : Type}.
Variable str_float : F -> string.
Variable float_ltb : F -> F -> bool.









End Identifiers.



(** ** Catalog cache *)

Section CacheFacts.
Context {F : Type}.
Variable str_float : F -> string.
Variable float_ltb : F -> F -> bool.

(** A cache that is absent, unusable or made for another root is passed
    over and leaves the world as it was. *)
Lemma use_cache_passed_over (root_dir cache_path : PPath.t) (w : World.t F) :
  World.disk w (path_str cache_path) = NoFile
  \/ World.disk w (path_str cache_path) = Garbled
  \/ (exists idx, World.disk w (path_str cache_path) = Stored idx
                  /\ root_matches idx root_dir = false) ->
  use_cache root_dir cache_path w = (Ret false, w).
Proof.
  unfold use_cache, load_index, try_except, bind, get_world, ret, raise.
  intros [H|[H|(idx & H & Hm)]]; rewrite H; cbn beta iota;
    rewrite ?H; cbn beta iota; rewrite ?Hm; reflexivity.
Qed.
End CacheFacts.

(** C1, as the code has it. A failure to save the cache file is not caught:
    it ends [ensure_index] and [refresh_index_if_requested] with the error.
    [ensure_index] installs the built index before it saves, so the live
    index is the new one either way; [refresh_index_if_requested] saves
    first, so after a failed save the live index is still the previous one.
    When the save succeeds both return with the new index live. *)
Theorem C1_save_failure_propagates
    {F : Type} (str_float : F -> string) (float_ltb : F -> F -> bool)
    (w : World.t F) (root_dir : PPath.t) :
  let failed : outcome unit :=
    if World.writable w then Ret tt else Raise "OSError" in
  (forall r,
      World.resolve w root_dir = Some r ->
      (World.disk w (path_str (joinpath r ".reels_index.json")) = NoFile
       \/ World.disk w (path_str (joinpath r ".reels_index.json")) = Garbled
       \/ (exists idx,
              World.disk w (path_str (joinpath r ".reels_index.json"))
              = Stored idx
              /\ root_matches idx r = false)) ->
      exists w',
        ensure_index str_float float_ltb root_dir w = (failed, w')
        /\ World.INDEX w'
           = build_index str_float float_ltb (World.clock w) r
                         (World.rglob w r))
  /\ (forall args p,
         reindex_requested args = true ->
         World.INDEX_CACHE_PATH w = Some p ->
         exists w',
           refresh_index_if_requested str_float float_ltb args root_dir w
           = (failed, w')
           /\ World.INDEX w'
              = if World.writable w
                then build_index str_float float_ltb (World.clock w) root_dir
                                 (World.rglob w root_dir)
                else World.INDEX w).
Proof.
  intros failed. split.
  - intros r Hr Hc.
    pose proof (use_cache_passed_over r (joinpath r ".reels_index.json")
                  (World.set_INDEX_CACHE_PATH
                     (joinpath r ".reels_index.json") w) Hc) as Hu.
    unfold ensure_index, bind, get_world, modify. rewrite Hr.
    cbn beta iota. rewrite Hu.
    cbv [build_index_now bind get_world ret save_index raise modify].
    cbn [World.set_INDEX World.set_INDEX_CACHE_PATH World.writable
         World.INDEX World.INDEX_CACHE_PATH World.clock World.rglob].
    subst failed. destruct (World.writable w); eexists; split; reflexivity.
  - intros args p Hreq Hp.
    unfold refresh_index_if_requested. rewrite Hreq.
    cbv [build_index_now bind get_world ret modify].
    rewrite Hp. cbv [save_index bind get_world raise modify]. subst failed.
    destruct (World.writable w); eexists; split; reflexivity.
Qed.

Lemma C1_save_failure_propagates_witness :
  (exists w',
      ensure_index Demo.str_float Demo.float_ltb (parse_path "/srv/media")
                   Demo.read_only_world
      = (Raise "OSError", w')
      /\ Index.items (World.INDEX w') = [Demo.built_item])
  /\ (exists w',
         refresh_index_if_requested Demo.str_float Demo.float_ltb
           [("reindex", "1")] (parse_path "/srv/media") Demo.read_only_world
         = (Raise "OSError", w')
         /\ World.INDEX w' = Demo.empty_index).
Proof.
  destruct (C1_save_failure_propagates Demo.str_float Demo.float_ltb
              Demo.read_only_world (parse_path "/srv/media")) as [He Hr].
  split.
  - destruct (He (parse_path "/srv/media") eq_refl (or_introl eq_refl))
      as (w' & E & Hi).
    exists w'. split; [exact E|]. rewrite Hi. vm_compute. reflexivity.
  - destruct (Hr [("reindex", "1")]
                 (parse_path "/srv/media/.reels_index.json")
                 eq_refl eq_refl) as (w' & E & Hi).
    exists w'. split; [exact E|exact Hi].
Defined.

(** C1 as stated fails: on a disk that refuses writes, a reindex request
    ends with the error and the live index is still the old, empty one, not
    the index just built; at startup [ensure_index] ends with the error. *)
Lemma C1_read_only_reindex_keeps_old_index :
  let after :=
    refresh_index_if_requested Demo.str_float Demo.float_ltb
      [("reindex", "1")] (parse_path "/srv/media") Demo.read_only_world in
  fst after = Raise "OSError"
  /\ Index.items (World.INDEX (snd after)) = []
  /\ Index.items
       (build_index Demo.str_float Demo.float_ltb 42
                    (parse_path "/srv/media") Demo.walk)
     = [Demo.built_item]
  /\ fst (ensure_index Demo.str_float Demo.float_ltb
            (parse_path "/srv/media") Demo.read_only_world)
     = Raise "OSError".
Proof. vm_compute. repeat split. Qed.

(** * Further properties of the code *)

(** ** The slash normaliser *)

Lemma prefix_empty (s : string) : String.prefix "" s = true.
Proof. now destruct s. Qed.

Lemma contains_char (d c : ascii) (s : string) :
  contains (String c s) (String d "")
  = orb (Ascii.eqb d c) (contains s (String d "")).
Proof.
  cbn [contains].
  change (String.prefix (String d "") (String c s))
    with (if ascii_dec d c then String.prefix "" s else false).
  destruct (ascii_dec d c) as [->|N].
  - now rewrite prefix_empty, Ascii.eqb_refl.
  - apply Ascii.eqb_neq in N. now rewrite N.
Qed.

Lemma startswith_char (d c : ascii) (s : string) :
  startswith (String c s) (String d "") = Ascii.eqb d c.
Proof.
  unfold startswith.
  change (String.prefix (String d "") (String c s))
    with (if ascii_dec d c then String.prefix "" s else false).
  destruct (ascii_dec d c) as [->|N].
  - now rewrite prefix_empty, Ascii.eqb_refl.
  - apply Ascii.eqb_neq in N. now rewrite N.
Qed.

Lemma contains_two_slashes (c : ascii) (s : string) :
  contains (String c s) "//"
  = orb (andb (Ascii.eqb c "/") (startswith s "/")) (contains s "//").
Proof.
  cbn [contains]. f_equal. unfold startswith.
  change (String.prefix "//" (String c s))
    with (if ascii_dec "/" c then String.prefix "/" s else false).
  destruct (ascii_dec "/" c) as [<-|N]; [reflexivity|].
  assert (E : Ascii.eqb c "/" = false)
    by (apply Ascii.eqb_neq; congruence).
  now rewrite E.
Qed.

Lemma replace_backslash_clean (s : string) :
  contains (replace_backslash s) "\" = false.
Proof.
  induction s as [|c s IH]; [reflexivity|].
  cbn [replace_backslash]. rewrite contains_char, IH.
  destruct (Ascii.eqb c "\") eqn:E; [reflexivity|].
  now rewrite Ascii.eqb_sym, E.
Qed.

Lemma collapse_slashes_head (s : string) :
  startswith (collapse_slashes s) "/" = startswith s "/".
Proof.
  induction s as [|c s IH]; [reflexivity|].
  cbn [collapse_slashes].
  destruct (Ascii.eqb c "/") eqn:E; cbn [andb].
  - apply Ascii.eqb_eq in E. subst c.
    destruct (startswith s "/") eqn:Es; [|now rewrite !startswith_char].
    rewrite IH. now rewrite startswith_char.
  - now rewrite !startswith_char.
Qed.

Lemma collapse_slashes_keeps_clean (s : string) :
  contains s "\" = false -> contains (collapse_slashes s) "\" = false.
Proof.
  induction s as [|c s IH]; [reflexivity|].
  rewrite contains_char. intros H. apply orb_false_elim in H as [Hc Hs].
  cbn [collapse_slashes].
  destruct (andb (Ascii.eqb c "/") (startswith s "/")); [now apply IH|].
  now rewrite contains_char, Hc, IH.
Qed.

Lemma collapse_slashes_single (s : string) :
  contains (collapse_slashes s) "//" = false.
Proof.
  induction s as [|c s IH]; [reflexivity|].
  cbn [collapse_slashes].
  destruct (andb (Ascii.eqb c "/") (startswith s "/")) eqn:E; [exact IH|].
  now rewrite contains_two_slashes, collapse_slashes_head, E, IH.
Qed.

Lemma lstrip_slash_suffix (s q : string) :
  contains s q = false -> contains (lstrip_slash s) q = false.
Proof.
  induction s as [|c s IH]; [trivial|].
  intros H. cbn [lstrip_slash].
  destruct (Ascii.eqb c "/"); [|exact H].
  apply IH. cbn [contains] in H. now apply orb_false_elim in H as [_ H].
Qed.

Lemma lstrip_slash_head (s : string) :
  startswith (lstrip_slash s) "/" = false.
Proof.
  induction s as [|c s IH]; [reflexivity|].
  cbn [lstrip_slash]. destruct (Ascii.eqb c "/") eqn:E; [exact IH|].
  now rewrite startswith_char, Ascii.eqb_sym.
Qed.

Lemma safe_norm_shape (path : string) :
  startswith (safe_norm path) "/" = false
  /\ contains (safe_norm path) "\" = false
  /\ contains (safe_norm path) "//" = false.
Proof.
  unfold safe_norm. split; [apply lstrip_slash_head|]. split.
  - apply lstrip_slash_suffix, collapse_slashes_keeps_clean,
      replace_backslash_clean.
  - apply lstrip_slash_suffix, collapse_slashes_single.
Qed.

(** X1. What [safe_norm] returns never begins with a slash and holds
    neither a backslash nor two slashes in a row. *)
Theorem X1_safe_norm_shape (path : string) :
  startswith (safe_norm path) "/" = false
  /\ contains (safe_norm path) "\" = false
  /\ contains (safe_norm path) "//" = false.
Proof. apply safe_norm_shape. Qed.

Lemma replace_backslash_fixed (s : string) :
  contains s "\" = false -> replace_backslash s = s.
Proof.
  induction s as [|c s IH]; [reflexivity|].
  rewrite contains_char. intros H. apply orb_false_elim in H as [Hc Hs].
  cbn [replace_backslash]. rewrite Ascii.eqb_sym, Hc. now rewrite IH.
Qed.

Lemma collapse_slashes_fixed (s : string) :
  contains s "//" = false -> collapse_slashes s = s.
Proof.
  induction s as [|c s IH]; [reflexivity|].
  rewrite contains_two_slashes. intros H.
  apply orb_false_elim in H as [Hc Hs].
  cbn [collapse_slashes]. rewrite Hc. now rewrite IH.
Qed.

Lemma lstrip_slash_fixed (s : string) :
  startswith s "/" = false -> lstrip_slash s = s.
Proof.
  destruct s as [|c s]; [reflexivity|].
  rewrite startswith_char, Ascii.eqb_sym. intros H.
  cbn [lstrip_slash]. now rewrite H.
Qed.

Lemma safe_norm_idem (path : string) :
  safe_norm (safe_norm path) = safe_norm path.
Proof.
  destruct (safe_norm_shape path) as (H1 & H2 & H3).
  unfold safe_norm at 1.
  now rewrite (replace_backslash_fixed _ H2), (collapse_slashes_fixed _ H3),
    (lstrip_slash_fixed _ H1).
Qed.

(** X2. [safe_norm] is idempotent: a normalised path is left as it is. *)
Theorem X2_safe_norm_idempotent (path : string) :
  safe_norm (safe_norm path) = safe_norm path.
Proof. apply safe_norm_idem. Qed.

(** ** Scores *)

Lemma prefix_same_length (q s : string) :
  String.prefix q s = true -> String.length q = String.length s -> q = s.
Proof.
  revert s. induction q as [|a q IH]; intros s H L.
  - destruct s; [reflexivity|discriminate L].
  - destruct s as [|b s]; [discriminate L|].
    apply prefix_cons in H as [-> H]. f_equal. apply IH; [exact H|].
    now injection L.
Qed.

(** A substring is no longer than the text, and of the same length only
    when it is the text. *)
Lemma contains_length (s q : string) :
  contains s q = true ->
  (String.length q <= String.length s)%nat
  /\ (String.length q = String.length s -> q = s).
Proof.
  induction s as [|c s IH]; cbn [contains]; intros H.
  - rewrite orb_false_r in H. split; [now apply prefix_length|].
    now apply prefix_same_length.
  - apply orb_prop in H as [H|H].
    + split; [now apply prefix_length|now apply prefix_same_length].
    + destruct (IH H) as [L _]. cbn [String.length]. split; lia.
Qed.

Lemma lower_ascii_idem (c : ascii) : lower_ascii (lower_ascii c) = lower_ascii c.
Proof. destruct c as [[] [] [] [] [] [] [] []]; reflexivity. Qed.

Lemma lower_idem (s : string) : lower (lower s) = lower s.
Proof.
  induction s as [|c s IH]; [reflexivity|].
  cbn [lower]. now rewrite lower_ascii_idem, IH.
Qed.

(** X3. A blank query scores 0; a query equal to the file name, case
    ignored, scores 1000; a query that is a proper substring of the file name
    scores 800 less the extra length, at most 799; one found only in the path
    scores at most 500. An exact match therefore always outranks a substring
    match. *)
Theorem X3_score_tiers (q f r : string) :
  let q' := strip (lower q) in
  (truthy q' = false -> score_match q f r = 0)
  /\ (truthy q' = true -> q' = lower f -> score_match q f r = 1000)
  /\ (truthy q' = true -> q' <> lower f -> contains (lower f) q' = true ->
      score_match q f r = 800 - (len f - len q')
      /\ score_match q f r <= 799)
  /\ (truthy q' = true -> q' <> lower f -> contains (lower f) q' = false ->
      contains (lower r) q' = true ->
      score_match q f r = 500 - (len r - len q')
      /\ score_match q f r <= 500).
Proof.
  intros q'. unfold score_match. fold q'.
  split; [intros ->; reflexivity|].
  split; [intros -> ->; now rewrite String.eqb_refl|].
  split.
  - intros -> Hne Hc. cbn [negb].
    apply String.eqb_neq in Hne as Hn. rewrite Hn, Hc, len_lower.
    split; [reflexivity|].
    destruct (contains_length _ _ Hc) as [L E].
    rewrite length_lower in L, E. unfold len.
    assert (String.length q' <> String.length f) by (intros X; now apply Hne, E).
    lia.
  - intros -> Hne Hf Hc. cbn [negb].
    apply String.eqb_neq in Hne as Hn. rewrite Hn, Hf, Hc, len_lower.
    split; [reflexivity|].
    destruct (contains_length _ _ Hc) as [L _].
    rewrite length_lower in L. unfold len. lia.
Qed.

Lemma X3_score_tiers_witness :
  score_match " Clip.MP4 " "clip.mp4" "trips/clip.mp4" = 1000
  /\ score_match "CLIP" "clip.mp4" "trips/clip.mp4" = 796
  /\ score_match "trips" "clip.mp4" "trips/clip.mp4" = 491
  /\ score_match "   " "clip.mp4" "trips/clip.mp4" = 0.
Proof.
  split; [|split; [|split]].
  - apply (X3_score_tiers " Clip.MP4 " "clip.mp4" "trips/clip.mp4");
      reflexivity.
  - apply (X3_score_tiers "CLIP" "clip.mp4" "trips/clip.mp4");
      [reflexivity|discriminate|reflexivity].
  - apply (X3_score_tiers "trips" "clip.mp4" "trips/clip.mp4");
      [reflexivity|discriminate|reflexivity|reflexivity].
  - apply (X3_score_tiers "   " "clip.mp4" "trips/clip.mp4"). reflexivity.
Defined.

Lemma score_match_folded (q f r : string) :
  score_match (lower (strip q)) (lower f) (lower r) = score_match q f r.
Proof.
  unfold score_match.
  rewrite !lower_idem, !strip_lower, strip_idem. reflexivity.
Qed.

Lemma scored_items_ext {F : Type} (q1 q2 : string) (items : list (Item.t F)) :
  (forall f r, score_match q1 f r = score_match q2 f r) ->
  scored_items q1 items = scored_items q2 items.
Proof.
  intros H. unfold scored_items. apply flat_map_ext. intros it.
  now rewrite H.
Qed.

(** X4. The case of the query and of the names, and blanks around the
    query, change neither a score nor the answer of [filter_items]. *)
Theorem X4_query_case_and_blanks_ignored
    {F : Type} (INDEX : Index.t F) (q folder : string) (sw : option string) :
  (forall f r,
      score_match (lower (strip q)) (lower f) (lower r) = score_match q f r)
  /\ filter_items INDEX (lower (strip q)) folder sw
     = filter_items INDEX q folder sw.
Proof.
  split; [intros; apply score_match_folded|].
  rewrite (filter_items_unfold INDEX q), (filter_items_unfold INDEX (lower _)).
  rewrite strip_lower, strip_idem, truthy_lower.
  destruct (truthy (strip q)); cbn [negb]; [|reflexivity].
  do 2 f_equal. apply scored_items_ext. intros f r.
  unfold score_match. now rewrite lower_idem, strip_lower, !strip_idem.
Qed.

(** ** What the filter returns *)

(** The survivors of the folder and prefix filters, as one [filter]. *)
Lemma filter_items_survivors {F : Type} (INDEX : Index.t F) (f : string)
    (p : option string) :
  filter_items INDEX "" f p
  = filter (fun it =>
              andb (orb (negb (truthy (safe_norm f)))
                        (Spec.in_scope (safe_norm f) it))
                   (Spec.has_prefix
                      (match p with Some s => strip s | None => "" end) it))
           (Index.items INDEX).
Proof.
  set (p' := match p with Some s => strip s | None => "" end).
  unfold filter_items. cbn [strip lstrip rstrip truthy negb].
  set (f' := safe_norm f).
  unfold Spec.has_prefix, Spec.in_scope, in_folder.
  assert (Hp : forall l : list (Item.t F),
             match p with
             | Some sw0 =>
                 if truthy sw0 then
                   if truthy (lower (strip sw0))
                   then filter (fun it => startswith
                                            (lower (Item.filename it))
                                            (lower (strip sw0))) l
                   else l
                 else l
             | None => l
             end
             = filter (fun it => orb (negb (truthy p'))
                                     (startswith (lower (Item.filename it))
                                                 (lower p'))) l).
  { intros l. subst p'. destruct p as [sw0|]; cbn [truthy negb orb].
    - destruct (truthy sw0) eqn:E0.
      + rewrite truthy_lower. destruct (truthy (strip sw0));
          cbn [negb orb]; [reflexivity|now rewrite filter_all].
      + apply truthy_empty in E0. subst sw0. cbn. now rewrite filter_all.
    - now rewrite filter_all. }
  rewrite Hp. destruct (truthy f'); cbn [negb orb andb].
  - apply filter_filter.
  - apply filter_ext. intros it. reflexivity.
Qed.

Lemma filter_length_le {A : Type} (f : A -> bool) (l : list A) :
  (List.length (filter f l) <= List.length l)%nat.
Proof.
  induction l as [|x l IH]; cbn; [lia|]. destruct (f x); cbn; lia.
Qed.

(** X5. Whatever the query, [filter_items] returns catalog entries only,
    never more than the catalog holds and none twice when the catalog has no
    duplicate; each one lies in the normalised folder scope when that is not
    empty, bears the stripped prefix, and, for a query that is not blank, has
    a positive score. *)
Theorem X5_filter_items_sound
    {F : Type} (INDEX : Index.t F) (q folder : string) (sw : option string) :
  let result := filter_items INDEX q folder sw in
  (List.length result <= List.length (Index.items INDEX))%nat
  /\ (NoDup (Index.items INDEX) -> NoDup result)
  /\ (forall it,
         In it result ->
         In it (Index.items INDEX)
         /\ (truthy (safe_norm folder) = true ->
             Spec.in_scope (safe_norm folder) it = true)
         /\ Spec.has_prefix
              (match sw with Some s => strip s | None => "" end) it = true
         /\ (truthy (strip q) = true ->
             0 < score_match (strip q) (Item.filename it) (Item.relpath it))).
Proof.
  intros result. subst result.
  set (keep := fun it : Item.t F =>
         andb (orb (negb (truthy (safe_norm folder)))
                   (Spec.in_scope (safe_norm folder) it))
              (Spec.has_prefix
                 (match sw with Some s => strip s | None => "" end) it)).
  set (sc := fun it : Item.t F =>
         score_match (strip q) (Item.filename it) (Item.relpath it)).
  assert (P : Permutation (filter_items INDEX q folder sw)
                (filter (fun it => orb (negb (truthy (strip q))) (0 <? sc it))
                        (filter keep (Index.items INDEX)))).
  { rewrite filter_items_unfold, filter_items_survivors. fold keep.
    destruct (truthy (strip q)); cbn [negb orb]; [|now rewrite filter_all].
    rewrite scored_items_map. unfold sort_desc.
    rewrite (sort_by_map (fun it => (sc it, it)) (fun y x => fst x <? fst y)).
    rewrite map_map. cbn [snd]. rewrite map_id. apply sort_by_perm. }
  split; [|split].
  - rewrite (Permutation_length P).
    etransitivity; [apply filter_length_le|apply filter_length_le].
  - intros N. apply (Permutation_NoDup (Permutation_sym P)).
    now apply NoDup_filter, NoDup_filter.
  - intros it Hin. apply (Permutation_in _ P) in Hin.
    apply filter_In in Hin as [Hin Hs]. apply filter_In in Hin as [Hin Hk].
    unfold keep in Hk. apply andb_prop in Hk as [Hscope Hp].
    split; [exact Hin|]. split; [|split; [exact Hp|]].
    + intros T. now rewrite T in Hscope.
    + intros T. rewrite T in Hs. cbn [negb orb] in Hs.
      now apply Z.ltb_lt in Hs.
Qed.

Lemma X5_filter_items_sound_witness :
  let INDEX := Demo.index_of [Demo.top; Demo.nested] in
  In Demo.nested (filter_items INDEX "clip" "trips" (Some " CL "))
  /\ Spec.in_scope "trips" Demo.nested = true
  /\ 0 < score_match "clip" "clip.mp4" "trips/clip.mp4".
Proof.
  intros INDEX.
  assert (Hin : In Demo.nested (filter_items INDEX "clip" "trips" (Some " CL ")))
    by (vm_compute; left; reflexivity).
  destruct (X5_filter_items_sound INDEX "clip" "trips" (Some " CL "))
    as (_ & _ & H).
  destruct (H Demo.nested Hin) as (_ & Hs & _ & Hq).
  split; [exact Hin|]. split; [apply Hs; reflexivity|apply Hq; reflexivity].
Defined.

(** ** Lookup by identifier *)

(** X6. [get_item_by_id] returns the first catalog entry that bears the
    identifier, and [None] exactly when no entry bears it. *)
Theorem X6_get_item_by_id_first
    {F : Type} (INDEX : Index.t F) (item_id : string) :
  match get_item_by_id INDEX item_id with
  | Some it =>
      Item.id it = item_id
      /\ exists before after,
           Index.items INDEX = (before ++ it :: after)%list
           /\ Forall (fun x => Item.id x <> item_id) before
  | None => Forall (fun x => Item.id x <> item_id) (Index.items INDEX)
  end.
Proof.
  unfold get_item_by_id.
  induction (Index.items INDEX) as [|x l IH]; cbn [find]; [constructor|].
  destruct (String.eqb (Item.id x) item_id) eqn:E.
  - apply String.eqb_eq in E. split; [exact E|].
    exists [], l. split; [reflexivity|constructor].
  - apply String.eqb_neq in E. destruct (find _ l) as [it|].
    + destruct IH as (Hid & before & after & Hl & Hb).
      split; [exact Hid|]. exists (x :: before), after.
      split; [now rewrite Hl|now constructor].
    + now constructor.
Qed.

(** ** Pages *)

Lemma firstn_add_skipn {A : Type} (a b : nat) (l : list A) :
  firstn (a + b) l = (firstn a l ++ firstn b (skipn a l))%list.
Proof.
  revert l. induction a as [|a IH]; intros l; [reflexivity|].
  destruct l as [|x l]; cbn [Nat.add firstn skipn app].
  - now rewrite firstn_nil.
  - now rewrite IH.
Qed.

Lemma pages_concat {F : Type} (items : list (Item.t F)) (limit : Z) (n : nat) :
  1 <= limit ->
  concat (map (fun i => Page.items
                          (make_page items (Z.of_nat i * limit) limit))
              (seq 0 n))
  = map page_item (firstn (n * Z.to_nat limit) items).
Proof.
  intros Hl. induction n as [|n IH]; [reflexivity|].
  rewrite seq_S, map_app, concat_app, IH. cbn [Nat.add map concat].
  rewrite app_nil_r. unfold make_page at 1. cbn [Page.items].
  rewrite slice_window by lia.
  replace (Z.to_nat (Z.of_nat n * limit)) with (n * Z.to_nat limit)%nat
    by lia.
  rewrite <- map_app, <- firstn_add_skipn. f_equal. f_equal. lia.
Qed.

(** X7. Successive pages of one size, asked at the offsets 0, limit,
    2 * limit and so on, put end to end give the list back: every entry
    once, in order, as soon as the pages reach the end. *)
Theorem X7_pages_cover_the_list
    {F : Type} (items : list (Item.t F)) (limit : Z) (n : nat) :
  1 <= limit ->
  Z.of_nat (List.length items) <= Z.of_nat n * limit ->
  concat (map (fun i => Page.items
                          (make_page items (Z.of_nat i * limit) limit))
              (seq 0 n))
  = map page_item items.
Proof.
  intros Hl Hn. rewrite pages_concat by exact Hl.
  now rewrite firstn_all2 by nia.
Qed.

Lemma X7_pages_cover_the_list_witness :
  (Page.items (make_page (Index.items Demo.catalog) 0 3)
   ++ Page.items (make_page (Index.items Demo.catalog) 3 3))%list
  = map page_item (Index.items Demo.catalog).
Proof.
  rewrite <- (X7_pages_cover_the_list (Index.items Demo.catalog) 3 2);
    [|lia|cbn; lia].
  cbn [seq map concat Z.of_nat Z.mul]. now rewrite app_nil_r.
Defined.

Lemma filter_items_strip {F : Type} (INDEX : Index.t F) (q folder : string)
    (sw : option string) :
  filter_items INDEX (strip q) folder sw = filter_items INDEX q folder sw.
Proof.
  rewrite (filter_items_unfold INDEX q), (filter_items_unfold INDEX (strip q)).
  now rewrite strip_idem.
Qed.

Lemma slice_head {A : Type} (l : list A) (b : Z) :
  0 <= b -> slice l 0 b = firstn (Z.to_nat b) l.
Proof. intros H. exact (slice_window l 0 b (Z.le_refl 0) H). Qed.

(** X8. The suggestion endpoint always answers 200 with the first entries
    of the very list the feed endpoint pages through for the same [q],
    [folder] and [starts_with]: at least one place and at most 20 are
    offered, 8 when no limit is sent. *)
Theorem X8_suggest_is_head_of_feed_ranking
    {F : Type} (INDEX : Index.t F) (args : args_t) :
  let ranked :=
    filter_items INDEX (args_get args "q" "") (args_get args "folder" "")
                 (starts_with_arg args) in
  exists n : nat,
    (1 <= n <= 20)%nat
    /\ api_suggest INDEX args = (map suggest_item (firstn n ranked), 200)
    /\ (List.length (fst (api_suggest INDEX args)) <= 20)%nat
    /\ (args_get args "limit" "8" = "8" -> n = 8%nat).
Proof.
  intros ranked. unfold api_suggest. rewrite filter_items_strip. fold ranked.
  set (limit := Z.max 1 (Z.min match py_int (args_get args "limit" "8") with
                               | Some limit => limit
                               | None => 8
                               end 20)).
  assert (Hl : 1 <= limit <= 20) by (subst limit; lia).
  exists (Z.to_nat limit). rewrite slice_head by lia.
  split; [lia|]. split; [reflexivity|]. split.
  - cbn [fst]. rewrite length_map, length_firstn. lia.
  - intros E. subst limit. rewrite E. reflexivity.
Qed.

Lemma X8_suggest_is_head_of_feed_ranking_witness :
  api_suggest Demo.catalog []
  = (map suggest_item (firstn 8 (filter_items Demo.catalog "" "" None)), 200).
Proof.
  destruct (X8_suggest_is_head_of_feed_ranking Demo.catalog [])
    as (n & _ & E & _ & H8).
  rewrite E, (H8 eq_refl). reflexivity.
Defined.

(** ** What the streamer answers *)



(** What [serve_range] reads, whatever lies at the target. *)
Lemma serve_range_reads (fs : FS.t) (target : PPath.t) (g1 g2 : string) :
  all_digits g1 = true -> truthy g1 = true -> all_digits g2 = true ->
  match serve_range fs target g1 g2 with
  | (Resp data status _ _, trace) =>
      status = 206
      /\ exists content start length,
           FS.lookup fs target = File content
           /\ trace = [IoRead (path_str target) start length]
           /\ 0 <= start /\ 1 <= length
           /\ start + length <= Z.of_nat (List.length content)
           /\ data = firstn (Z.to_nat length) (skipn (Z.to_nat start) content)
           /\ Z.of_nat (List.length data) = length
  | (_, trace) => trace = []
  end.
Proof.
  intros A1 T1 A2.
  pose proof (digits_val_nonneg g1 0 A1 (Z.le_refl 0)) as Hs.
  destruct (FS.lookup fs target) as [|st|content] eqn:L.
  - unfold serve_range. now rewrite L.
  - unfold serve_range. rewrite L, (py_int_digits g1 A1 T1).
    destruct (truthy g2) eqn:T2;
      [rewrite (py_int_digits g2 A2 T2)|]; now destruct (_ <? _).
  - rewrite (serve_range_file fs target content g1 g2 L A1 T1 A2).
    set (size := Z.of_nat (List.length content)).
    set (start := digits_val 0 g1) in *.
    set (end_ := Z.min (if truthy g2 then digits_val 0 g2 else size - 1)
                       (size - 1)).
    destruct (Z.ltb_spec end_ start); [reflexivity|].
    split; [reflexivity|].
    exists content, start, (end_ - start + 1).
    assert (Hb : start + (end_ - start + 1) <= size) by (subst end_; lia).
    repeat split; try lia.
    apply file_read_length; lia.
Qed.

(** X10. [stream_video] reads file bytes itself only when it answers 206,
    and then once, from a regular file, a non-empty stretch that lies within
    the file and is the body returned; every other answer comes without a
    read. *)
Theorem X10_stream_reads_within_file
    {F : Type} (fs : FS.t) (ROOT_DIR : string) (INDEX : Index.t F)
    (item_id : string) (range_header : option string) :
  match stream_video fs ROOT_DIR INDEX item_id range_header with
  | (Resp data status _ _, trace) =>
      status = 206
      /\ exists target content start length,
           FS.lookup fs target = File content
           /\ trace = [IoRead (path_str target) start length]
           /\ 0 <= start /\ 1 <= length
           /\ start + length <= Z.of_nat (List.length content)
           /\ data = firstn (Z.to_nat length) (skipn (Z.to_nat start) content)
           /\ Z.of_nat (List.length data) = length
  | (_, trace) => trace = []
  end.
Proof.
  unfold stream_video.
  destruct (FS.resolve fs (parse_path ROOT_DIR)) as [root|]; [|reflexivity].
  destruct (get_item_by_id INDEX item_id) as [it|]; [|reflexivity].
  destruct (FS.resolve fs (joinpath root (Item.relpath it))) as [target|];
    [|reflexivity].
  destruct (orb _ _); [reflexivity|].
  destruct range_header as [h|]; [|reflexivity].
  destruct (truthy h); cbn [negb]; [|reflexivity].
  destruct (match_range h) as [[g1 g2]|] eqn:M; [|reflexivity].
  destruct (match_range_groups h g1 g2 M) as (_ & A1 & T1 & A2).
  pose proof (serve_range_reads fs target g1 g2 A1 T1 A2) as R.
  destruct (serve_range fs target g1 g2) as [[c|p|data status m hs|e] trace];
    try exact R.
  destruct R as (Hst & content & start & length & R).
  split; [exact Hst|]. now exists target, content, start, length.
Qed.

(** ** Which targets are served *)

Lemma path_eqb_refl (p : PPath.t) : path_eqb p p = true.
Proof.
  unfold path_eqb. rewrite Bool.eqb_reflx.
  now destruct (list_eq_dec string_dec (PPath.parts p) (PPath.parts p)).
Qed.

(** An accepted target resolves to the resolved root or below it. *)
Lemma is_within_root_inside (fs : FS.t) (root target : PPath.t) :
  is_within_root fs root target = true ->
  exists r t,
    FS.resolve fs root = Some r /\ FS.resolve fs target = Some t
    /\ (canonical r -> canonical t -> t = r \/ strict_descendant r t).
Proof.
  unfold is_within_root.
  destruct (FS.resolve fs root) as [r|]; [|discriminate].
  destruct (FS.resolve fs target) as [t|]; [|discriminate].
  intros H. exists r, t. repeat split. intros Cr Ct.
  apply orb_prop in H as [H|H].
  - right. now apply startswith_sep_descendant.
  - left. now apply path_eqb_eq.
Qed.


(** X12. [stream_video] answers 404, or fails with an exception, or
    answers (with a whole file, a 206 or a 416) for an identifier borne by a
    catalog entry whose target exists and resolves to the canonical root or
    below it. *)
Theorem X12_stream_serves_catalog_entries_inside_root
    {F : Type} (fs : FS.t) (ROOT_DIR : string) (INDEX : Index.t F)
    (item_id : string) (range_header : option string) :
  let answer := fst (stream_video fs ROOT_DIR INDEX item_id range_header) in
  answer = Abort 404
  \/ (exists exn, answer = Uncaught exn)
  \/ (exists root it target r t,
         FS.resolve fs (parse_path ROOT_DIR) = Some root
         /\ get_item_by_id INDEX item_id = Some it
         /\ FS.resolve fs (joinpath root (Item.relpath it)) = Some target
         /\ path_exists fs target = true
         /\ FS.resolve fs root = Some r /\ FS.resolve fs target = Some t
         /\ (canonical r -> canonical t -> t = r \/ strict_descendant r t)).
Proof.
  intros answer. subst answer. unfold stream_video.
  destruct (FS.resolve fs (parse_path ROOT_DIR)) as [root|] eqn:Hr;
    [|right; left; now eexists].
  destruct (get_item_by_id INDEX item_id) as [it|] eqn:Hi; [|now left].
  destruct (FS.resolve fs (joinpath root (Item.relpath it)))
    as [target|] eqn:Ht; [|right; left; now eexists].
  destruct (is_within_root fs root target) eqn:W; cbn [negb orb];
    [|now left].
  destruct (path_exists fs target) eqn:He; cbn [negb]; [|now left].
  destruct (is_within_root_inside fs root target W) as (r & t & H1 & H2 & H3).
  right. right. exists root, it, target, r, t. now repeat split.
Qed.

Lemma prefix_app_self (p u : string) : String.prefix p (p ++ u) = true.
Proof.
  induction p as [|a p IH]; [apply prefix_empty|].
  change (String.prefix (String a p) (String a p ++ u))
    with (if ascii_dec a a then String.prefix p (p ++ u) else false).
  now destruct (ascii_dec a a).
Qed.

Lemma join_slash_app (r rest : list string) :
  r <> [] -> rest <> [] ->
  join_slash (r ++ rest) = join_slash r ++ "/" ++ join_slash rest.
Proof.
  intros Hr Hrest. induction r as [|a r IH]; [congruence|].
  destruct r as [|b r].
  - destruct rest as [|c rest]; [congruence|]. reflexivity.
  - change (join_slash ((a :: b :: r) ++ rest))
      with (a ++ "/" ++ join_slash ((b :: r) ++ rest)).
    rewrite IH by discriminate.
    change (join_slash (a :: b :: r)) with (a ++ "/" ++ join_slash (b :: r)).
    now rewrite !append_assoc.
Qed.

(** The text of a canonical path never begins with two slashes. *)
Lemma canonical_single_slash (t : PPath.t) :
  canonical t -> startswith (path_str t) "//" = false.
Proof.
  intros [At Ct]. unfold startswith, path_str. rewrite At.
  destruct (String.prefix "//" ("/" ++ join_slash (PPath.parts t))) eqn:H;
    [|reflexivity].
  exfalso.
  change (String.prefix (String "/" (String "/" ""))
                        (String "/" (join_slash (PPath.parts t))) = true) in H.
  apply prefix_cons in H as [_ H].
  destruct (PPath.parts t) as [|b t']; [discriminate H|].
  inversion Ct as [|? ? [Hne Hb] _]; subst.
  destruct b as [|c b]; [congruence|].
  destruct (no_slash_head c b Hb) as [Hc _].
  assert (E : exists s, join_slash (String c b :: t') = String c s).
  { destruct t'; [now exists b|]. now eexists. }
  destruct E as [s E]. rewrite E in H.
  apply prefix_cons in H as [E' _]. congruence.
Qed.

(** X13. When the root resolves to a directory other than [/],
    [is_within_root] accepts the root itself and every path strictly below
    it. When the root resolves to [/] itself, it accepts the root only:
    the text tested is then two slashes, which no canonical path begins
    with. *)
Theorem X13_is_within_root_accepts
    (fs : FS.t) (root target r t : PPath.t) :
  FS.resolve fs root = Some r ->
  FS.resolve fs target = Some t ->
  (t = r -> is_within_root fs root target = true)
  /\ (PPath.anchored r = true -> PPath.anchored t = true ->
      PPath.parts r <> [] -> strict_descendant r t ->
      is_within_root fs root target = true)
  /\ (r = PPath.mk true [] -> canonical t -> t <> r ->
      is_within_root fs root target = false).
Proof.
  intros Hr Ht. unfold is_within_root. rewrite Hr, Ht.
  split; [|split].
  - intros ->. rewrite path_eqb_refl. apply orb_true_r.
  - intros Ar At Hne (rest & Hrest & E).
    apply orb_true_intro. left.
    unfold startswith, path_str, os_sep. rewrite Ar, At, E.
    rewrite (join_slash_app _ _ Hne Hrest).
    replace ("/" ++ join_slash (PPath.parts r) ++ "/" ++ join_slash rest)
      with ((("/" ++ join_slash (PPath.parts r)) ++ "/") ++ join_slash rest)
      by (now rewrite !append_assoc).
    apply prefix_app_self.
  - intros -> Ct Hne. apply orb_false_intro.
    + apply (canonical_single_slash t Ct).
    + destruct (path_eqb t (PPath.mk true [])) eqn:E; [|reflexivity].
      exfalso. apply Hne. now apply path_eqb_eq.
Qed.

Lemma X13_is_within_root_accepts_witness :
  is_within_root Demo.fs (PPath.mk true ["srv"; "media"])
                 (PPath.mk true ["srv"; "media"; "a.mp4"]) = true
  /\ is_within_root Demo.fs (PPath.mk true ["srv"; "media"])
                    (PPath.mk true ["srv"; "media"]) = true
  /\ is_within_root Demo.fs (PPath.mk true [])
                    (PPath.mk true ["srv"; "media"; "a.mp4"]) = false.
Proof.
  split; [|split].
  - destruct (X13_is_within_root_accepts Demo.fs
                (PPath.mk true ["srv"; "media"])
                (PPath.mk true ["srv"; "media"; "a.mp4"])
                (PPath.mk true ["srv"; "media"])
                (PPath.mk true ["srv"; "media"; "a.mp4"]) eq_refl eq_refl)
      as (_ & H & _).
    apply H; [reflexivity|reflexivity|discriminate|].
    exists ["a.mp4"]. split; [discriminate|reflexivity].
  - destruct (X13_is_within_root_accepts Demo.fs
                (PPath.mk true ["srv"; "media"])
                (PPath.mk true ["srv"; "media"])
                (PPath.mk true ["srv"; "media"])
                (PPath.mk true ["srv"; "media"]) eq_refl eq_refl)
      as (H & _ & _).
    apply H. reflexivity.
  - destruct (X13_is_within_root_accepts Demo.fs (PPath.mk true [])
                (PPath.mk true ["srv"; "media"; "a.mp4"]) (PPath.mk true [])
                (PPath.mk true ["srv"; "media"; "a.mp4"]) eq_refl eq_refl)
      as (_ & _ & H).
    apply H; [reflexivity| |discriminate].
    split; [reflexivity|]. repeat constructor; discriminate.
Defined.

(** ** What the builder produces *)

Section BuilderFacts.
Context {F : Type}.
Variable str_float : F -> string.
Variable float_ltb : F -> F -> bool.

Lemma str_mem_in (x : string) (l : list string) :
  str_mem x l = true <-> In x l.
Proof.
  unfold str_mem. rewrite existsb_exists. split.
  - intros (y & Hy & E). apply String.eqb_eq in E. now subst y.
  - intros H. exists x. split; [exact H|apply String.eqb_refl].
Qed.

Lemma build_step_cases (acc : list (Item.t F) * list string)
    (p : Walk.entry F) :
  build_step str_float acc p
  = if is_video p
    then ((fst acc ++ [item_of str_float p])%list,
          set_add (Item.folder (item_of str_float p)) (snd acc))
    else acc.
Proof.
  destruct acc as [items folders]. unfold build_step, is_video, item_of.
  destruct (Walk.is_file p); cbn [negb andb]; [|reflexivity].
  now destruct (str_mem _ VIDEO_EXTS).
Qed.

(** The entries gathered by the loop, in the order of the walk. *)
Lemma build_loop_items (walk : list (Walk.entry F))
    (acc : list (Item.t F) * list string) :
  fst (fold_left (build_step str_float) walk acc)
  = (fst acc ++ map (item_of str_float) (filter is_video walk))%list.
Proof.
  revert acc. induction walk as [|p walk IH]; intros acc; cbn [fold_left].
  - cbn. now rewrite app_nil_r.
  - rewrite IH, build_step_cases. cbn [filter].
    destruct (is_video p); cbn [fst map]; [|reflexivity].
    now rewrite <- app_assoc.
Qed.

Lemma set_add_in (x y : string) (l : list string) :
  In y (set_add x l) <-> y = x \/ In y l.
Proof.
  unfold set_add. destruct (str_mem x l) eqn:E.
  - apply str_mem_in in E. split; [now right|]. now intros [->|H].
  - rewrite in_app_iff. cbn. intuition congruence.
Qed.

Lemma set_add_nodup (x : string) (l : list string) :
  NoDup l -> NoDup (set_add x l).
Proof.
  intros N. unfold set_add. destruct (str_mem x l) eqn:E; [exact N|].
  apply NoDup_app; [exact N|repeat constructor; intros []|].
  intros y Hy [<-|[]].
  apply str_mem_in in Hy. congruence.
Qed.

(** The folder set kept by the loop: no duplicate, nothing lost, and the
    folder of every gathered entry inside. *)
Lemma build_loop_folders (walk : list (Walk.entry F))
    (acc : list (Item.t F) * list string) :
  NoDup (snd acc) ->
  Forall (fun it => In (Item.folder it) (snd acc)) (fst acc) ->
  let out := fold_left (build_step str_float) walk acc in
  NoDup (snd out)
  /\ incl (snd acc) (snd out)
  /\ Forall (fun it => In (Item.folder it) (snd out)) (fst out).
Proof.
  revert acc. induction walk as [|p walk IH]; intros acc N A; cbn [fold_left].
  - repeat split; [exact N|apply incl_refl|exact A].
  - rewrite build_step_cases. destruct (is_video p); [|now apply IH].
    set (acc' := ((fst acc ++ [item_of str_float p])%list,
                  set_add (Item.folder (item_of str_float p)) (snd acc))).
    assert (N' : NoDup (snd acc')) by now apply set_add_nodup.
    assert (A' : Forall (fun it => In (Item.folder it) (snd acc')) (fst acc')).
    { apply Forall_app. split.
      - eapply Forall_impl; [|exact A]. intros it H.
        apply set_add_in. now right.
      - constructor; [|constructor]. apply set_add_in. now left. }
    destruct (IH acc' N' A') as (H1 & H2 & H3).
    repeat split; [exact H1| |exact H3].
    intros x Hx. apply H2. apply set_add_in. now right.
Qed.

Lemma item_of_normalised (p : Walk.entry F) :
  safe_norm (Item.relpath (item_of str_float p))
  = Item.relpath (item_of str_float p)
  /\ safe_norm (Item.folder (item_of str_float p))
     = Item.folder (item_of str_float p).
Proof.
  unfold item_of. cbn [Item.relpath Item.folder].
  split; [apply safe_norm_idem|].
  destruct (String.eqb _ "."); [reflexivity|apply safe_norm_idem].
Qed.

Lemma build_index_items_perm (now : F) (root_dir : PPath.t)
    (walk : list (Walk.entry F)) :
  Permutation
    (Index.items (build_index str_float float_ltb now root_dir walk))
    (map (item_of str_float) (filter is_video walk)).
Proof.
  unfold build_index.
  pose proof (build_loop_items walk ([], [""])) as E.
  destruct (fold_left (build_step str_float) walk ([], [""]))
    as [items folders].
  cbn [fst Index.items app] in *. subst items. apply sort_by_perm.
Qed.

Lemma build_index_folders_hold (now : F) (root_dir : PPath.t)
    (walk : list (Walk.entry F)) :
  let idx := build_index str_float float_ltb now root_dir walk in
  NoDup (Index.folders idx)
  /\ In "" (Index.folders idx)
  /\ Forall (fun it => In (Item.folder it) (Index.folders idx))
            (Index.items idx).
Proof.
  unfold build_index.
  destruct (build_loop_folders walk ([], [""])) as (N & I & A).
  { repeat constructor. intros []. }
  { constructor. }
  destruct (fold_left (build_step str_float) walk ([], [""]))
    as [items folders].
  cbn [fst snd Index.items Index.folders] in *.
  split; [|split].
  - eapply Permutation_NoDup; [apply Permutation_sym, sort_by_perm|exact N].
  - apply sort_by_in, I. now left.
  - eapply Permutation_Forall; [apply Permutation_sym, sort_by_perm|].
    eapply Forall_impl; [|exact A]. intros it H. now apply sort_by_in.
Qed.

End BuilderFacts.

(** X14. In a built catalog the folder list has no duplicate, holds the
    empty folder, and holds the folder of every entry, so [api_folders]
    offers every folder that has a video. *)
Theorem X14_built_folders_cover_entries
    {F : Type} (str_float : F -> string) (float_ltb : F -> F -> bool)
    (now : F) (root_dir : PPath.t) (walk : list (Walk.entry F)) :
  let idx := build_index str_float float_ltb now root_dir walk in
  NoDup (api_folders idx)
  /\ In "" (api_folders idx)
  /\ Forall (fun it => In (Item.folder it) (api_folders idx))
            (Index.items idx).
Proof. apply build_index_folders_hold. Qed.

(** X15. The entries of a built catalog are, up to order, the entries made
    of the regular files of the walk whose suffix is a video suffix, one for
    each: directories and other files give none. Every entry has a file name
    with a video suffix and a relative path in normal form. *)
Theorem X15_built_entries_are_the_videos
    {F : Type} (str_float : F -> string) (float_ltb : F -> F -> bool)
    (now : F) (root_dir : PPath.t) (walk : list (Walk.entry F)) :
  let idx := build_index str_float float_ltb now root_dir walk in
  Permutation (Index.items idx)
              (map (item_of str_float) (filter is_video walk))
  /\ List.length (Index.items idx) = List.length (filter is_video walk)
  /\ Forall (fun it =>
               str_mem (lower (name_suffix (Item.filename it))) VIDEO_EXTS
               = true
               /\ safe_norm (Item.relpath it) = Item.relpath it
               /\ startswith (Item.relpath it) "/" = false)
            (Index.items idx).
Proof.
  intros idx. subst idx.
  pose proof (build_index_items_perm str_float float_ltb now root_dir walk)
    as P.
  split; [exact P|]. split.
  - rewrite (Permutation_length P). apply length_map.
  - eapply Permutation_Forall; [apply Permutation_sym, P|].
    apply Forall_forall. intros it Hin.
    apply in_map_iff in Hin as (p & <- & Hp).
    apply filter_In in Hp as [_ Hv]. unfold is_video in Hv.
    apply andb_prop in Hv as [_ Hv].
    destruct (item_of_normalised str_float p) as [Hr _].
    split; [exact Hv|]. split; [exact Hr|].
    rewrite <- Hr. apply safe_norm_shape.
Qed.

(** A sort by an order that is asymmetric and whose negation is transitive
    leaves no element before one it should follow. *)
Lemma sort_by_sorted {A : Type} (before : A -> A -> bool) (l : list A) :
  (forall x y, before y x = true -> before x y = false) ->
  (forall x y z, before y x = false -> before z y = false ->
                 before z x = false) ->
  StronglySorted (fun a b => before b a = false) (sort_by before l).
Proof.
  intros Asym Trans.
  induction l as [|x l IH]; cbn [sort_by]; [constructor|].
  revert IH. generalize (sort_by before l) as m. clear l.
  induction 1 as [|y m Hm IH Hy]; cbn [insert_by].
  - repeat constructor.
  - destruct (before y x) eqn:E.
    + constructor; [exact IH|].
      eapply Permutation_Forall; [apply Permutation_sym, insert_by_perm|].
      constructor; [now apply Asym|exact Hy].
    + constructor; [now constructor|].
      constructor; [exact E|].
      eapply Forall_impl; [|exact Hy]. intros z Hz. now apply (Trans x y z).
Qed.

(** X16. When the order of the modification times is asymmetric and "not
    before" is transitive, as it is for times that are numbers, the entries
    of a built catalog stand newest first: none is older than one that comes
    after it. *)
Theorem X16_built_entries_newest_first
    {F : Type} (str_float : F -> string) (float_ltb : F -> F -> bool)
    (now : F) (root_dir : PPath.t) (walk : list (Walk.entry F)) :
  (forall a b, float_ltb a b = true -> float_ltb b a = false) ->
  (forall a b c, float_ltb a b = false -> float_ltb b c = false ->
                 float_ltb a c = false) ->
  StronglySorted (newest_first float_ltb)
    (Index.items (build_index str_float float_ltb now root_dir walk)).
Proof.
  intros Asym Trans. unfold build_index.
  destruct (fold_left (build_step str_float) walk ([], [""]))
    as [items folders].
  cbn [Index.items]. unfold newest_first.
  apply (sort_by_sorted
           (fun y x => float_ltb (Item.mtime x) (Item.mtime y))).
  - intros x y. apply Asym.
  - intros x y z H1 H2. exact (Trans _ _ _ H1 H2).
Qed.

Lemma X16_built_entries_newest_first_witness :
  map (@Item.mtime Z)
      (Index.items
         (build_index Demo.str_float Demo.float_ltb 42
            (parse_path "/srv/media")
            [Walk.mk "old.mp4" true 3 10; Walk.mk "new.mp4" true 9 10;
             Walk.mk "mid.mov" true 5 10]))
  = [9; 5; 3]
  /\ StronglySorted (newest_first Demo.float_ltb)
       (Index.items
          (build_index Demo.str_float Demo.float_ltb 42
             (parse_path "/srv/media")
             [Walk.mk "old.mp4" true 3 10; Walk.mk "new.mp4" true 9 10;
              Walk.mk "mid.mov" true 5 10])).
Proof.
  split; [vm_compute; reflexivity|].
  apply (X16_built_entries_newest_first Demo.str_float Demo.float_ltb);
    unfold Demo.float_ltb; intros; lia.
Defined.

(** X17. In a built catalog, asking [filter_items] for the folder of an
    entry, with no query and no prefix, returns that entry. *)
Theorem X17_entry_found_in_its_folder
    {F : Type} (str_float : F -> string) (float_ltb : F -> F -> bool)
    (now : F) (root_dir : PPath.t) (walk : list (Walk.entry F))
    (it : Item.t F) :
  let idx := build_index str_float float_ltb now root_dir walk in
  In it (Index.items idx) ->
  In it (filter_items idx "" (Item.folder it) None).
Proof.
  intros idx Hin. rewrite filter_items_survivors. apply filter_In.
  split; [exact Hin|].
  assert (E : safe_norm (Item.folder it) = Item.folder it).
  { apply (Permutation_in _
             (build_index_items_perm str_float float_ltb now root_dir walk))
      in Hin.
    apply in_map_iff in Hin as (p & <- & _).
    apply item_of_normalised. }
  rewrite E. unfold Spec.in_scope, Spec.has_prefix.
  rewrite String.eqb_refl. cbn [truthy negb orb].
  now rewrite orb_true_r.
Qed.

Lemma X17_entry_found_in_its_folder_witness :
  let idx :=
    build_index Demo.str_float Demo.float_ltb 42 (parse_path "/srv/media")
      [Walk.mk "trips/2024/sea.mp4" true 3 10; Walk.mk "top.mp4" true 9 10] in
  let it := hd Demo.built_item (rev (Index.items idx)) in
  Item.folder it = "trips/2024"
  /\ In it (filter_items idx "" (Item.folder it) None).
Proof.
  intros idx it. split; [vm_compute; reflexivity|].
  apply (X17_entry_found_in_its_folder Demo.str_float Demo.float_ltb 42
           (parse_path "/srv/media")
           [Walk.mk "trips/2024/sea.mp4" true 3 10;
            Walk.mk "top.mp4" true 9 10] it).
  vm_compute. right. left. reflexivity.
Defined.

(** ** Startup, the cache and the page *)

Section StartupFacts.
Context {F : Type}.
Variable str_float : F -> string.
Variable float_ltb : F -> F -> bool.

(** A saved index made for this root is installed from the cache. *)
Lemma use_cache_hit (root_dir cache_path : PPath.t) (w : World.t F)
    (idx : Index.t F) :
  World.disk w (path_str cache_path) = Stored idx ->
  root_matches idx root_dir = true ->
  use_cache root_dir cache_path w = (Ret true, World.set_INDEX idx w).
Proof.
  intros H Hm.
  unfold use_cache, load_index, try_except, bind, get_world, ret, raise,
    modify.
  rewrite H; cbn beta iota; rewrite ?H; cbn beta iota; rewrite ?Hm;
    reflexivity.
Qed.

Lemma root_matches_eq (idx : Index.t F) (r : PPath.t) :
  root_matches idx r = true <-> Index.root idx = Some (path_str r).
Proof.
  unfold root_matches. destruct (Index.root idx) as [s|]; [|easy].
  rewrite String.eqb_eq. split; congruence.
Qed.

(** What [ensure_index] does, by the state of the cache and of the disk. *)
Lemma ensure_index_cases (root_dir r : PPath.t) (w : World.t F) :
  World.resolve w root_dir = Some r ->
  let cache_path := joinpath r ".reels_index.json" in
  let w0 := World.set_INDEX_CACHE_PATH cache_path w in
  let built := build_index str_float float_ltb (World.clock w) r
                           (World.rglob w r) in
  ensure_index str_float float_ltb root_dir w
  = match World.disk w (path_str cache_path) with
    | Stored idx =>
        if root_matches idx r then (Ret tt, World.set_INDEX idx w0)
        else if World.writable w
             then (Ret tt, World.write_file (path_str cache_path)
                                            (Stored built)
                                            (World.set_INDEX built w0))
             else (Raise "OSError", World.set_INDEX built w0)
    | _ =>
        if World.writable w
        then (Ret tt, World.write_file (path_str cache_path) (Stored built)
                                       (World.set_INDEX built w0))
        else (Raise "OSError", World.set_INDEX built w0)
    end.
Proof.
  intros Hr cache_path w0 built.
  assert (Miss : use_cache r cache_path w0 = (Ret false, w0) ->
                 ensure_index str_float float_ltb root_dir w
                 = if World.writable w
                   then (Ret tt,
                         World.write_file (path_str cache_path) (Stored built)
                                          (World.set_INDEX built w0))
                   else (Raise "OSError", World.set_INDEX built w0)).
  { intros Hu. unfold ensure_index, bind, get_world, modify. rewrite Hr.
    cbn beta iota. fold cache_path. fold w0. rewrite Hu.
    cbv [build_index_now bind get_world ret save_index raise modify].
    subst w0.
    cbn [World.set_INDEX World.set_INDEX_CACHE_PATH World.writable
         World.INDEX World.INDEX_CACHE_PATH World.clock World.rglob].
    fold built. now destruct (World.writable w). }
  destruct (World.disk w (path_str cache_path)) as [| |idx] eqn:D.
  - apply Miss, use_cache_passed_over. now left.
  - apply Miss, use_cache_passed_over. right. now left.
  - destruct (root_matches idx r) eqn:Hm.
    + unfold ensure_index, bind, get_world, modify. rewrite Hr.
      cbn beta iota. fold cache_path. fold w0.
      now rewrite (use_cache_hit r cache_path w0 idx D Hm).
    + apply Miss, use_cache_passed_over. right. right. now exists idx.
Qed.

End StartupFacts.

(** X18. When the cache file holds an index saved for the resolved root,
    [ensure_index] installs it and returns: nothing is built, whatever the
    tree now holds, and nothing is written, even on a disk that refuses
    writes. *)
Theorem X18_valid_cache_is_used
    {F : Type} (str_float : F -> string) (float_ltb : F -> F -> bool)
    (w : World.t F) (root_dir r : PPath.t) (idx : Index.t F) :
  World.resolve w root_dir = Some r ->
  World.disk w (path_str (joinpath r ".reels_index.json")) = Stored idx ->
  Index.root idx = Some (path_str r) ->
  exists w',
    ensure_index str_float float_ltb root_dir w = (Ret tt, w')
    /\ World.INDEX w' = idx
    /\ (forall p, World.disk w' p = World.disk w p).
Proof.
  intros Hr D Hroot.
  rewrite (ensure_index_cases str_float float_ltb root_dir r w Hr), D.
  apply root_matches_eq in Hroot. rewrite Hroot.
  eexists. split; [reflexivity|]. split; reflexivity.
Qed.

Lemma X18_valid_cache_is_used_witness :
  let cached : Index.t Z :=
    Index.mk (Some 7) (Some "/srv/media") [Demo.top] [""] in
  let w : World.t Z :=
    World.mk Demo.empty_index None (fun _ => Stored cached) false
             (fun _ => Demo.walk) 42 (fun p => Some p) in
  exists w',
    ensure_index Demo.str_float Demo.float_ltb (parse_path "/srv/media") w
    = (Ret tt, w')
    /\ World.INDEX w' = cached.
Proof.
  intros cached w.
  destruct (X18_valid_cache_is_used Demo.str_float Demo.float_ltb w
              (parse_path "/srv/media") (parse_path "/srv/media") cached
              eq_refl eq_refl eq_refl) as (w' & E & Hi & _).
  now exists w'.
Defined.

(** X19. After [ensure_index] has returned, the live index is one made for
    the resolved root, the cache path is the side file of that root, and the
    cache file holds the live index. *)
Theorem X19_after_startup_cache_matches_index
    {F : Type} (str_float : F -> string) (float_ltb : F -> F -> bool)
    (w w' : World.t F) (root_dir : PPath.t) :
  ensure_index str_float float_ltb root_dir w = (Ret tt, w') ->
  exists r,
    World.resolve w root_dir = Some r
    /\ Index.root (World.INDEX w') = Some (path_str r)
    /\ World.INDEX_CACHE_PATH w' = Some (joinpath r ".reels_index.json")
    /\ World.disk w' (path_str (joinpath r ".reels_index.json"))
       = Stored (World.INDEX w').
Proof.
  intros E.
  destruct (World.resolve w root_dir) as [r|] eqn:Hr.
  - exists r. split; [reflexivity|].
    rewrite (ensure_index_cases str_float float_ltb root_dir r w Hr) in E.
    assert (Built :
      (if World.writable w
       then (Ret tt,
             World.write_file (path_str (joinpath r ".reels_index.json"))
               (Stored (build_index str_float float_ltb (World.clock w) r
                                    (World.rglob w r)))
               (World.set_INDEX
                  (build_index str_float float_ltb (World.clock w) r
                               (World.rglob w r))
                  (World.set_INDEX_CACHE_PATH
                     (joinpath r ".reels_index.json") w)))
       else (Raise "OSError",
             World.set_INDEX
               (build_index str_float float_ltb (World.clock w) r
                            (World.rglob w r))
               (World.set_INDEX_CACHE_PATH
                  (joinpath r ".reels_index.json") w)))
      = (Ret tt, w') ->
      Index.root (World.INDEX w') = Some (path_str r)
      /\ World.INDEX_CACHE_PATH w' = Some (joinpath r ".reels_index.json")
      /\ World.disk w' (path_str (joinpath r ".reels_index.json"))
         = Stored (World.INDEX w')).
    { destruct (World.writable w); [|discriminate].
      intros [= <-]. unfold build_index.
      destruct (fold_left _ _ _) as [items folders].
      cbn [World.INDEX World.write_file World.set_INDEX
           World.INDEX_CACHE_PATH World.set_INDEX_CACHE_PATH World.disk
           Index.root].
      now rewrite String.eqb_refl. }
    destruct (World.disk w (path_str (joinpath r ".reels_index.json")))
      as [| |idx] eqn:D; try (now apply Built).
    destruct (root_matches idx r) eqn:Hm; [|now apply Built].
    injection E as <-.
    cbn [World.INDEX World.set_INDEX World.INDEX_CACHE_PATH
         World.set_INDEX_CACHE_PATH World.disk].
    apply root_matches_eq in Hm. now rewrite D.
  - exfalso. unfold ensure_index, bind, get_world in E. rewrite Hr in E.
    discriminate E.
Qed.

Lemma X19_after_startup_cache_matches_index_witness :
  let after :=
    ensure_index Demo.str_float Demo.float_ltb (parse_path "/srv/media")
                 Demo.writable_world in
  fst after = Ret tt
  /\ World.disk (snd after) "/srv/media/.reels_index.json"
     = Stored (World.INDEX (snd after))
  /\ Index.items (World.INDEX (snd after)) = [Demo.built_item].
Proof.
  intros after.
  assert (E : after = (Ret tt, snd after)) by (vm_compute; reflexivity).
  destruct (X19_after_startup_cache_matches_index Demo.str_float
              Demo.float_ltb Demo.writable_world (snd after)
              (parse_path "/srv/media") E) as (r & Hr & _ & _ & Hd).
  injection Hr as <-.
  split; [now rewrite E|]. split; [exact Hd|]. vm_compute. reflexivity.
Defined.

(** X20. Once [ensure_index] has returned, a later start over the same
    cache file and the same root installs the same index again, whatever the
    tree holds by then: files added or removed since are not seen until a
    reindex is asked for. *)
Theorem X20_restart_reuses_the_cache
    {F : Type} (str_float : F -> string) (float_ltb : F -> F -> bool)
    (w w1 w2 : World.t F) (root_dir r : PPath.t) :
  ensure_index str_float float_ltb root_dir w = (Ret tt, w1) ->
  World.resolve w root_dir = Some r ->
  World.resolve w2 root_dir = Some r ->
  World.disk w2 (path_str (joinpath r ".reels_index.json"))
  = World.disk w1 (path_str (joinpath r ".reels_index.json")) ->
  exists w3,
    ensure_index str_float float_ltb root_dir w2 = (Ret tt, w3)
    /\ World.INDEX w3 = World.INDEX w1.
Proof.
  intros E Hr Hr2 D.
  assert (Hroot : Index.root (World.INDEX w1) = Some (path_str r)
                  /\ World.disk w1 (path_str (joinpath r ".reels_index.json"))
                     = Stored (World.INDEX w1)).
  { rewrite (ensure_index_cases str_float float_ltb root_dir r w Hr) in E.
    assert (Built : forall b : bool,
      (if b
       then (Ret tt,
             World.write_file (path_str (joinpath r ".reels_index.json"))
               (Stored (build_index str_float float_ltb (World.clock w) r
                                    (World.rglob w r)))
               (World.set_INDEX
                  (build_index str_float float_ltb (World.clock w) r
                               (World.rglob w r))
                  (World.set_INDEX_CACHE_PATH
                     (joinpath r ".reels_index.json") w)))
       else (Raise "OSError",
             World.set_INDEX
               (build_index str_float float_ltb (World.clock w) r
                            (World.rglob w r))
               (World.set_INDEX_CACHE_PATH
                  (joinpath r ".reels_index.json") w)))
      = (Ret tt, w1) ->
      Index.root (World.INDEX w1) = Some (path_str r)
      /\ World.disk w1 (path_str (joinpath r ".reels_index.json"))
         = Stored (World.INDEX w1)).
    { intros [|]; [|discriminate]. intros [= <-]. unfold build_index.
      destruct (fold_left _ _ _) as [items folders].
      cbn [World.INDEX World.write_file World.set_INDEX World.disk
           Index.root].
      now rewrite String.eqb_refl. }
    destruct (World.disk w (path_str (joinpath r ".reels_index.json")))
      as [| |idx] eqn:D0; try (now apply (Built (World.writable w))).
    destruct (root_matches idx r) eqn:Hm;
      [|now apply (Built (World.writable w))].
    injection E as <-.
    cbn [World.INDEX World.set_INDEX World.set_INDEX_CACHE_PATH World.disk].
    apply root_matches_eq in Hm. now rewrite D0. }
  destruct Hroot as [Hroot Hd]. rewrite Hd in D.
  rewrite (ensure_index_cases str_float float_ltb root_dir r w2 Hr2), D.
  apply root_matches_eq in Hroot. rewrite Hroot.
  eexists. split; reflexivity.
Qed.

Lemma X20_restart_reuses_the_cache_witness :
  let first :=
    ensure_index Demo.str_float Demo.float_ltb (parse_path "/srv/media")
                 Demo.writable_world in
  let later : World.t Z :=
    World.mk Demo.empty_index None (World.disk (snd first)) false
             (fun _ => []) 99 (fun p => Some p) in
  exists w3,
    ensure_index Demo.str_float Demo.float_ltb (parse_path "/srv/media") later
    = (Ret tt, w3)
    /\ World.INDEX w3 = World.INDEX (snd first).
Proof.
  intros first later.
  assert (E : first = (Ret tt, snd first)) by (vm_compute; reflexivity).
  apply (X20_restart_reuses_the_cache Demo.str_float Demo.float_ltb
           Demo.writable_world (snd first) later (parse_path "/srv/media")
           (parse_path "/srv/media") E); reflexivity.
Defined.

(** X21. [home] rebuilds only when [reindex] is exactly [1]: otherwise it
    returns the page and leaves the process as it was. When asked on a disk
    that accepts writes, with the cache path set, it returns the page with
    the newly built index live and saved at the cache path; when the cache
    path was never set it fails and keeps the live index. *)
Theorem X21_home_reindexes_on_request
    {F : Type} (str_float : F -> string) (float_ltb : F -> F -> bool)
    (page : string) (args : args_t) (ROOT_DIR : string) (w : World.t F) :
  let built :=
    build_index str_float float_ltb (World.clock w) (parse_path ROOT_DIR)
                (World.rglob w (parse_path ROOT_DIR)) in
  (args_get args "reindex" "" <> "1" ->
   home str_float float_ltb page args ROOT_DIR w = (Ret page, w))
  /\ (args_get args "reindex" "" = "1" ->
      (forall p,
          World.INDEX_CACHE_PATH w = Some p -> World.writable w = true ->
          exists w',
            home str_float float_ltb page args ROOT_DIR w = (Ret page, w')
            /\ World.INDEX w' = built
            /\ World.disk w' (path_str p) = Stored built)
      /\ (World.INDEX_CACHE_PATH w = None ->
          home str_float float_ltb page args ROOT_DIR w
          = (Raise "AttributeError", w))).
Proof.
  intros built. unfold home, refresh_index_if_requested, reindex_requested.
  split.
  - intros H. apply String.eqb_neq in H. rewrite H. reflexivity.
  - intros H. rewrite H. cbn [String.eqb Ascii.eqb Bool.eqb].
    split.
    + intros p Hp Hw.
      cbv [build_index_now bind get_world ret modify]. rewrite Hp.
      cbv [save_index bind get_world raise modify]. rewrite Hw.
      eexists. split; [reflexivity|].
      cbn [World.INDEX World.set_INDEX World.write_file World.disk].
      split; [reflexivity|]. now rewrite String.eqb_refl.
    + intros Hp.
      cbv [build_index_now bind get_world ret modify]. rewrite Hp.
      reflexivity.
Qed.

Lemma X21_home_reindexes_on_request_witness :
  (exists w',
      home Demo.str_float Demo.float_ltb "<html>" [("reindex", "1")]
           "/srv/media" Demo.writable_world
      = (Ret "<html>", w')
      /\ Index.items (World.INDEX w') = [Demo.built_item])
  /\ fst (home Demo.str_float Demo.float_ltb "<html>" [("reindex", "true")]
               "/srv/media" Demo.writable_world)
     = Ret "<html>".
Proof.
  destruct (X21_home_reindexes_on_request Demo.str_float Demo.float_ltb
              "<html>" [("reindex", "1")] "/srv/media" Demo.writable_world)
    as (_ & H).
  destruct (H eq_refl) as (H1 & _).
  destruct (H1 (parse_path "/srv/media/.reels_index.json") eq_refl eq_refl)
    as (w' & E & Hi & _).
  split.
  - exists w'. split; [exact E|]. rewrite Hi. vm_compute. reflexivity.
  - destruct (X21_home_reindexes_on_request Demo.str_float Demo.float_ltb
                "<html>" [("reindex", "true")] "/srv/media"
                Demo.writable_world) as (H0 & _).
    rewrite H0; [reflexivity|discriminate].
Defined.

(** ** Numbers in requests *)








(** X23. The path [open_file] resolves is always built below the
    configured root: after [safe_norm] the requested text no longer begins
    with a slash, so joining it to the root keeps the parts of the root in
    front, whatever the request holds. *)
Theorem X23_open_file_joins_below_root (root : PPath.t) (relpath : string) :
  let target := joinpath root (safe_norm (unquote relpath)) in
  PPath.anchored target = PPath.anchored root
  /\ PPath.parts target
     = (PPath.parts root
        ++ PPath.parts (parse_path (safe_norm (unquote relpath))))%list.
Proof.
  intros target. subst target. unfold joinpath.
  destruct (safe_norm_shape (unquote relpath)) as (H & _ & _).
  assert (A : PPath.anchored (parse_path (safe_norm (unquote relpath)))
              = false) by exact H.
  rewrite A. split; reflexivity.
Qed.
